(** * muselab-pblreports: generate_muse_bindings_mac_ctrl.py

    A shallow embedding of the keybinding/snippet generator and the
    verification of its specification.

    Python [str] values are sequences of Unicode code points; they are
    modelled as [list N].  Python [int] values are modelled as [Z], [dict]
    values used as lookup tables as [gmap], and [dict] values whose
    insertion order is observable (they are serialised) as association
    lists. *)

From Stdlib Require Import ZArith NArith Ascii String DecimalString.
From stdpp Require Import gmap list.

Local Open Scope N_scope.

(** ** Text *)

(** Decoding of the UTF-8 bytes of a literal into code points, so that the
    literals of the source can be written as they are. *)
Fixpoint utf8_decode (bs : list N) : list N :=
  match bs with
  | [] => []
  | b0 :: r0 =>
      if b0 <? 128 then b0 :: utf8_decode r0
      else if b0 <? 224 then
        match r0 with
        | b1 :: r1 => ((b0 - 192) * 64 + (b1 - 128)) :: utf8_decode r1
        | _ => []
        end
      else if b0 <? 240 then
        match r0 with
        | b1 :: b2 :: r2 =>
            ((b0 - 224) * 4096 + (b1 - 128) * 64 + (b2 - 128)) :: utf8_decode r2
        | _ => []
        end
      else
        match r0 with
        | b1 :: b2 :: b3 :: r3 =>
            ((b0 - 240) * 262144 + (b1 - 128) * 4096 + (b2 - 128) * 64 + (b3 - 128))
              :: utf8_decode r3
        | _ => []
        end
  end.

Definition u (s : string) : list N :=
  utf8_decode (map N_of_ascii (list_ascii_of_string s)).

Arguments u : simpl never.

Definition LF : N := 10.
Definition CR : N := 13.
Definition BACKSLASH : N := 92.
Definition PERCENT : N := 37.
Definition LBRACE : N := 123.
Definition RBRACE : N := 125.
Definition LBRACKET : N := 91.
Definition RBRACKET : N := 93.

(** ** Character classes of Python 3 (Unicode 14 tables) *)

(** [str.splitlines] line boundaries. *)
Definition is_linebreak (c : N) : bool :=
  (c =? 10) || (c =? 11) || (c =? 12) || (c =? 13) || (c =? 28) || (c =? 29)
  || (c =? 30) || (c =? 133) || (c =? 8232) || (c =? 8233).

(** [\s] on a [str] pattern: the characters for which [str.isspace] holds. *)
Definition is_space (c : N) : bool :=
  ((9 <=? c) && (c <=? 13)) || ((28 <=? c) && (c <=? 32)) || (c =? 133)
  || (c =? 160) || (c =? 5760) || ((8192 <=? c) && (c <=? 8202))
  || (c =? 8232) || (c =? 8233) || (c =? 8239) || (c =? 8287) || (c =? 12288).

(** [\d] on a [str] pattern: the decimal digits (category Nd).  They come in
    runs of ten consecutive code points with values 0 to 9; the table lists
    the code point of each zero. *)
Definition decimal_zeros : list N :=
  [48; 1632; 1776; 1984; 2406; 2534; 2662; 2790; 2918; 3046; 3174; 3302;
   3430; 3558; 3664; 3792; 3872; 4160; 4240; 6112; 6160; 6470; 6608; 6784;
   6800; 6992; 7088; 7232; 7248; 42528; 43216; 43264; 43472; 43504; 43600;
   44016; 65296; 66720; 68912; 69734; 69872; 69942; 70096; 70384; 70736;
   70864; 71248; 71360; 71472; 71904; 72016; 72784; 73040; 73120; 92768;
   92864; 93008; 120782; 120792; 120802; 120812; 120822; 123200; 123632;
   125264; 130032].

Definition in_run (c z : N) : bool := (z <=? c) && (c <? z + 10).

Definition decimal_value (c : N) : option N :=
  match List.find (in_run c) decimal_zeros with
  | Some z => Some (c - z)
  | None => None
  end.

Definition is_digit (c : N) : bool :=
  match decimal_value c with Some _ => true | None => false end.

(** [[A-Za-z@]] *)
Definition is_name_char (c : N) : bool :=
  ((65 <=? c) && (c <=? 90)) || ((97 <=? c) && (c <=? 122)) || (c =? 64).

(** ** Comment stripper *)

(** [str.splitlines()]: the lines of a text without their terminators; a
    terminator at the very end opens no further line, and CR LF is one
    terminator. *)
Fixpoint splitlines (s : list N) : list (list N) :=
  match s with
  | [] => []
  | c :: rest =>
      if is_linebreak c then
        [] :: match rest with
              | c' :: rest' =>
                  if (c =? CR) && (c' =? LF) then splitlines rest'
                  else splitlines rest
              | [] => []
              end
      else
        match splitlines rest with
        | [] => [[c]]
        | l :: ls => (c :: l) :: ls
        end
  end.

(** [sep.join(lines)] *)
Fixpoint join (sep : list N) (lines : list (list N)) : list N :=
  match lines with
  | [] => []
  | l :: ls =>
      match ls with
      | [] => l
      | _ :: _ => l ++ sep ++ join sep ls
      end
  end.

(** What [.*] leaves: [.] matches anything but a line feed. *)
Fixpoint skip_dots (l : list N) : list N :=
  match l with
  | [] => []
  | c :: l' => if c =? LF then l else skip_dots l'
  end.

(** [$] without [re.MULTILINE]: the end of the string, or just before a line
    feed that ends the string. *)
Definition at_dollar (l : list N) : bool :=
  match l with
  | [] => true
  | c :: l' => (c =? LF) && match l' with [] => true | _ => false end
  end.

(** [re.sub] of the pattern [(?<!\\)%.*$] by the empty string.  [prev_bs]
    tells whether the character before the current position is a backslash.  After the first
    match what is left is empty or one line feed and holds no further
    match. *)
Fixpoint sub_comment_from (prev_bs : bool) (line : list N) : list N :=
  match line with
  | [] => []
  | c :: l' =>
      if (c =? PERCENT) && negb prev_bs && at_dollar (skip_dots l')
      then skip_dots l'
      else c :: sub_comment_from (c =? BACKSLASH) l'
  end.

Definition sub_comment (line : list N) : list N := sub_comment_from false line.

Definition strip_comments (text : list N) : list N :=
  join [LF] (map sub_comment (splitlines text)).

(** ** Macro extractor *)

(** The pattern of [extract_commands] is

      \\(?:re)?newcommand\s*\{\s*\\([A-Za-z@]+)\s*\}\s*(?:\[\s*(\d+)\s*\])?

    It is embedded with backtracking matchers in continuation-passing
    style: a matcher takes the continuation [k] that matches the rest of
    the pattern, and tries its alternatives in the order of the regex
    engine (greedy first).  The result of a match is what the continuation
    returns. *)
Section Matchers.
Context {R : Type}.

Definition orelse (a b : option R) : option R :=
  match a with Some r => Some r | None => b end.

(** One literal character. *)
Definition lit (c : N) (k : list N -> option R) (s : list N) : option R :=
  match s with
  | c' :: s' => if c' =? c then k s' else None
  | [] => None
  end.

(** A literal string. *)
Fixpoint lits (w : list N) (k : list N -> option R) (s : list N) : option R :=
  match w with
  | [] => k s
  | c :: w' => lit c (lits w' k) s
  end.

(** [(?:m)?] *)
Definition opt (m : (list N -> option R) -> list N -> option R)
    (k : list N -> option R) (s : list N) : option R :=
  orelse (m k s) (k s).

(** [p*] for a character class [p], greedy. *)
Fixpoint star (p : N -> bool) (k : list N -> option R) (s : list N) : option R :=
  match s with
  | c :: s' => if p c then orelse (star p k s') (k s) else k s
  | [] => k s
  end.

(** The same as a capturing group: the matched text is handed to the
  continuation. *)
Fixpoint star_cap (p : N -> bool) (k : list N -> list N -> option R)
    (s : list N) : option R :=
  match s with
  | c :: s' =>
      if p c then orelse (star_cap p (fun cap => k (c :: cap)) s') (k [] s)
      else k [] s
  | [] => k [] s
  end.

(** [p+] as a capturing group. *)
Definition plus_cap (p : N -> bool) (k : list N -> list N -> option R)
    (s : list N) : option R :=
  match s with
  | c :: s' => if p c then star_cap p (fun cap => k (c :: cap)) s' else None
  | [] => None
  end.
End Matchers.

(** A match object: [group(1)], [group(2)] ([None] when the bracket group
    took no part in the match) and the text after the match. *)
Record Match := { group1 : list N; group2 : option (list N); after : list N }.

(** [(?:\[\s*(\d+)\s*\])?] followed by the end of the pattern. *)
Definition bracket_group (name : list N) (s : list N) : option Match :=
  orelse
    (lit LBRACKET (star is_space (plus_cap is_digit (fun digits =>
       star is_space (lit RBRACKET (fun s' =>
         Some {| group1 := name; group2 := Some digits; after := s' |}))))) s)
    (Some {| group1 := name; group2 := None; after := s |}).

(** [pattern.match] at the start of [s]. *)
Definition pattern_match (s : list N) : option Match :=
  lit BACKSLASH
    (opt (lits (u "re"))
      (lits (u "newcommand")
        (star is_space
          (lit LBRACE
            (star is_space
              (lit BACKSLASH
                (plus_cap is_name_char (fun name =>
                  star is_space
                    (lit RBRACE
                      (star is_space (bracket_group name)))))))))))
    s.

(** [pattern.finditer]: the matches from left to right, each search
    starting where the previous match ended.  A match of this pattern is
    never empty.  [fuel] bounds the number of search positions. *)
Fixpoint finditer_from (fuel : nat) (s : list N) : list Match :=
  match fuel with
  | O => []
  | S fuel' =>
      match s with
      | [] => []
      | _ :: s' =>
          match pattern_match s with
          | Some m => m :: finditer_from fuel' (after m)
          | None => finditer_from fuel' s'
          end
      end
  end.

Definition finditer (s : list N) : list Match := finditer_from (length s) s.

(** The exceptions that the program can end with.  None of them is handled
    anywhere in the program. *)
Inductive exn :=
| ValueError
| RuntimeError
| OSError
| FileNotFoundError
| NotADirectoryError
| IsADirectoryError
| UnicodeEncodeError.

(** The value of a string of decimal digits. *)
Definition digit_of (d : N) : Z :=
  match decimal_value d with Some v => Z.of_N v | None => 0%Z end.

Definition decimal_of_digits (ds : list N) : Z :=
  fold_left (fun acc d => (acc * 10 + digit_of d)%Z) ds 0%Z.

(** The limit of Python (3.11, with its default setting) on the number of
    digits of a string that is converted to an [int]. *)
Definition INT_MAX_STR_DIGITS : nat := 4300.

(** [int(n_str)] on a string of decimal digits: [ValueError] when the string
    has more digits than the limit, leading zeros included. *)
Definition int_of_digits (ds : list N) : exn + Z :=
  if (INT_MAX_STR_DIGITS <? length ds)%nat then inl ValueError
  else inr (decimal_of_digits ds).

(** One turn of the loop of [extract_commands]. *)
Definition record_match (cmds : gmap (list N) Z) (m : Match)
    : exn + gmap (list N) Z :=
  let name := group1 m in
  let n_str := group2 m in
  match (match n_str with Some ds => int_of_digits ds | None => inr 0%Z end) with
  | inl e => inl e
  | inr n_args => inr (<[name := n_args]> cmds)
  end.

(** A [for] loop whose body may raise: the loop ends with the first
    exception. *)
Fixpoint for_each {A S : Type} (body : S -> A -> exn + S) (l : list A) (s : S)
    : exn + S :=
  match l with
  | [] => inr s
  | a :: l' =>
      match body s a with
      | inl e => inl e
      | inr s' => for_each body l' s'
      end
  end.

Definition extract_commands (sty_text : list N) : exn + gmap (list N) Z :=
  let cleaned := strip_comments sty_text in
  for_each record_match (finditer cleaned) ∅.

(** ** Binding and snippet synthesizer *)

Definition WHEN_CLAUSE : list N := u "editorTextFocus && editorLangId == latex".

(** A [dict] literal with distinct keys, in insertion order. *)
Definition KEY_MAP : list (list N * list N) :=
  [ (u "deleted", u "d");
    (u "added", u "a");
    (u "commented", u "c");
    (u "highlight", u "h");
    (u "needRef", u "r");
    (u "modified", u "m");
    (u "highlightComment", u "h") ].

Definition USE_ALT_PRIMARY : gset (list N) := {[ u "highlightComment" ]}.

(** [str(i)] for an [int]. *)
Definition str_int (i : Z) : list N := u (NilZero.string_of_int (Z.to_int i)).

(** [range(lo, hi)] *)
Definition py_range (lo hi : Z) : list Z :=
  map (fun k => (lo + Z.of_nat k)%Z) (seq 0 (Z.to_nat (hi - lo))).

Definition build_snippet (cmd : list N) (n_args : Z) : list N :=
  if (n_args <=? 0)%Z then
    u "\" ++ cmd ++ u " ${TM_SELECTED_TEXT:$1}"
  else if (n_args =? 1)%Z then
    u "\" ++ cmd ++ u "{${TM_SELECTED_TEXT:$1}}"
  else if (n_args =? 2)%Z then
    if decide (cmd = u "modified") then
      u "\" ++ cmd ++ u "{${TM_SELECTED_TEXT:$1}}{${2:修正後}}"
    else if decide (cmd = u "commented" \/ cmd = u "highlightComment") then
      u "\" ++ cmd ++ u "{${TM_SELECTED_TEXT:$1}}{${2:コメント}}"
    else
      u "\" ++ cmd ++ u "{${TM_SELECTED_TEXT:$1}}{${2:引数2}}"
  else
    let parts := [u "\" ++ cmd ++ u "{${TM_SELECTED_TEXT:$1}}"] in
    let parts :=
      fold_left
        (fun parts i =>
           parts ++ [u "{${" ++ str_int i ++ u ":引数" ++ str_int i ++ u "}}"])
        (py_range 2 (n_args + 1)) parts in
    concat parts.

Record BindingArgs := { snippet : list N }.

Record Binding := {
  key : list N;
  command : list N;
  when : list N;
  args : BindingArgs
}.

Definition make_binding (key snippet : list N) : Binding :=
  {| key := key;
     command := u "editor.action.insertSnippet";
     when := WHEN_CLAUSE;
     args := {| snippet := snippet |} |}.

(** The two chords of a macro. *)
Definition chords (cmd base_key : list N) : list N * list N :=
  if decide (cmd ∈ USE_ALT_PRIMARY) then
    (u "ctrl+alt+" ++ base_key, u "ctrl+shift+alt+" ++ base_key)
  else
    (u "ctrl+" ++ base_key, u "ctrl+shift+" ++ base_key).

(** One turn of the loop of [generate_keybindings]. *)
Definition keybindings_step (cmds : gmap (list N) Z) (bindings : list Binding)
    (item : list N * list N) : list Binding :=
  let '(cmd, base_key) := item in
  match cmds !! cmd with
  | None => bindings
  | Some n_args =>
      let snippet := build_snippet cmd n_args in
      let '(primary, fallback) := chords cmd base_key in
      (bindings ++ [make_binding primary snippet]) ++ [make_binding fallback snippet]
  end.

Definition generate_keybindings (cmds : gmap (list N) Z) : list Binding :=
  fold_left (keybindings_step cmds) KEY_MAP [].

Record SnippetEntry := {
  prefix : list N;
  body : list (list N);
  description : list N
}.

(** [d[k] = v] on a [dict] kept in insertion order: the value of a key that
    is present is replaced in place, a new key goes to the end. *)
Fixpoint dict_set {V : Type} (d : list (list N * V)) (k : list N) (v : V)
    : list (list N * V) :=
  match d with
  | [] => [(k, v)]
  | (k', v') :: d' =>
      if decide (k' = k) then (k, v) :: d' else (k', v') :: dict_set d' k v
  end.

(** One turn of the loop of [generate_snippets]. *)
Definition snippets_step (cmds : gmap (list N) Z)
    (snippets : list (list N * SnippetEntry)) (item : list N * list N)
    : list (list N * SnippetEntry) :=
  let cmd := fst item in
  match cmds !! cmd with
  | None => snippets
  | Some n_args =>
      let snippet := build_snippet cmd n_args in
      dict_set snippets (u "muse: " ++ cmd)
        {| prefix := u "muse-" ++ cmd;
           body := [snippet];
           description := u "muselab-correction: \" ++ cmd ++ u " (auto-generated)" |}
  end.

Definition generate_snippets (cmds : gmap (list N) Z)
    : list (list N * SnippetEntry) :=
  fold_left (snippets_step cmds) KEY_MAP [].

(** ** Emitter and command line *)

(** The values handed to [json.dumps]: strings, lists, and dicts in
    insertion order. *)
Unset Elimination Schemes.
Inductive json :=
| JStr (s : list N)
| JList (items : list json)
| JDict (items : list (list N * json)).
Set Elimination Schemes.

Definition binding_json (b : Binding) : json :=
  JDict [ (u "key", JStr (key b));
          (u "command", JStr (command b));
          (u "when", JStr (when b));
          (u "args", JDict [ (u "snippet", JStr (snippet (args b))) ]) ].

Definition entry_json (e : SnippetEntry) : json :=
  JDict [ (u "prefix", JStr (prefix e));
          (u "body", JList (map JStr (body e)));
          (u "description", JStr (description e)) ].

Definition keybindings_json (bindings : list Binding) : json :=
  JList (map binding_json bindings).

Definition snippets_json (snippets : list (list N * SnippetEntry)) : json :=
  JDict (map (fun item => (fst item, entry_json (snd item))) snippets).

(** The file system, as far as the program sees it: what each resolved path
    names.  The content of a file is kept as the text that its bytes decode
    to ([read_text] decodes UTF-8 and drops what does not decode,
    [write_text] encodes UTF-8).  Permissions are not modelled. *)
Inductive node :=
| File (content : list N)
| Dir.

Record world := {
  files : gmap (list N) node;
  stdout : list N
}.

(** How a run ends: [SystemExit] with the status that [main] returned, or
    an exception that nothing handles. *)
Inductive outcome :=
| Exit (status : Z)
| Raised (e : exn).

Definition SLASH : N := 47.

(** The directory part of a relative path. *)
Fixpoint dirname (p : list N) : list N :=
  match p with
  | [] => []
  | c :: p' => if existsb (N.eqb SLASH) p' then c :: dirname p' else []
  end.

(** What a [print(line)] that succeeds adds to standard output. *)
Definition write_line (line : list N) (w : world) : world :=
  {| files := files w; stdout := stdout w ++ line ++ [LF] |}.

Section Environment.

(** [Path(p).expanduser().resolve()]: the absolute path, or the exception
    that the call raises (for example [RuntimeError] when the home directory
    of [~user] cannot be determined). *)
Variable path_resolve : list N -> exn + list N.

(** The exception that [path.exists()] raises: the error of [os.stat] on the
    path, when it is another error than the ones that stand for an absent
    path (for example [OSError] for a name that is too long). *)
Variable stat_error : list N -> option exn.

(** The resolution of a path by the operating system: the name under which
    the file system knows what the path stands for. *)
Variable resolve : list N -> list N.

(** [json.dumps(obj, ensure_ascii=False, indent=2)] *)
Variable json_dumps : json -> list N.

(** The exception that [print] raises for a line that standard output does
    not take (for example [UnicodeEncodeError] for a lone surrogate, which a
    path given on the command line can hold). *)
Variable stdout_error : list N -> option exn.

(** [print(line)] *)
Definition print (line : list N) (w : world) : exn + world :=
  match stdout_error line with
  | Some e => inl e
  | None => inr (write_line line w)
  end.

(** [Path(path).write_text(content, encoding="utf-8")] *)
Definition write_text (path content : list N) (w : world) : exn + world :=
  match files w !! resolve (dirname path) with
  | None => inl FileNotFoundError
  | Some (File _) => inl NotADirectoryError
  | Some Dir =>
      match files w !! resolve path with
      | Some Dir => inl IsADirectoryError
      | _ => inr {| files := <[resolve path := File content]> (files w);
                    stdout := stdout w |}
      end
  end.

(** The summary loop of [main], from a position in the key map on: the
    exception of the first [print] that raises, if any, and the world that
    the loop leaves. *)
Fixpoint print_included_from (key_map : list (list N * list N))
    (cmds : gmap (list N) Z) (w : world) : option exn * world :=
  match key_map with
  | [] => (None, w)
  | item :: key_map' =>
      let cmd := fst item in
      match cmds !! cmd with
      | Some n_args =>
          match print (u "  \" ++ cmd ++ u " [" ++ str_int n_args ++ u " args]")
                  w with
          | inl e => (Some e, w)
          | inr w' => print_included_from key_map' cmds w'
          end
      | None => print_included_from key_map' cmds w
      end
  end.

Definition print_included (cmds : gmap (list N) Z) (w : world)
  : option exn * world :=
  print_included_from KEY_MAP cmds w.

(** The end of [main], from the first [print] after the two writes to the
    [return 0]. *)
Definition print_summary (cmds : gmap (list N) Z) (w2 : world)
  : outcome * world :=
  match print (u "Generated files:") w2 with
  | inl e => (Raised e, w2)
  | inr w3 =>
  match print (u "  - .vscode/keybindings.json") w3 with
  | inl e => (Raised e, w3)
  | inr w4 =>
  match print (u "  - .vscode/latex.json") w4 with
  | inl e => (Raised e, w4)
  | inr w5 =>
  match print ([LF] ++ u "Included commands:") w5 with
  | inl e => (Raised e, w5)
  | inr w6 =>
  match print_included cmds w6 with
  | (Some e, w7) => (Raised e, w7)
  | (None, w7) =>
  match print ([LF] ++ u "Note:") w7 with
  | inl e => (Raised e, w7)
  | inr w8 =>
  match print (u "  If a primary key conflicts, use its ctrl+shift fallback.")
          w8 with
  | inl e => (Raised e, w8)
  | inr w9 => (Exit 0, w9)
  end end end end end end end.

(** [main()] with [sys.argv] and the world made explicit. *)
Definition main (argv : list (list N)) (w : world) : outcome * world :=
  if (length argv <? 2)%nat then
    match print
            (u "Usage: python3 generate_muse_bindings_mac_ctrl.py <path-to-sty>")
            w with
    | inl e => (Raised e, w)
    | inr w' => (Exit 2, w')
    end
  else
    match path_resolve (nth 1 argv []) with
    | inl e => (Raised e, w)
    | inr sty_path =>
        match stat_error sty_path with
        | Some e => (Raised e, w)
        | None =>
            match files w !! resolve sty_path with
            | None =>
                match print (u "ERROR: file not found: " ++ sty_path) w with
                | inl e => (Raised e, w)
                | inr w' => (Exit 2, w')
                end
            | Some Dir => (Raised IsADirectoryError, w)
            | Some (File sty_text) =>
                match extract_commands sty_text with
                | inl e => (Raised e, w)
                | inr cmds =>
                    let keybindings := generate_keybindings cmds in
                    let snippets := generate_snippets cmds in
                    match write_text (u ".vscode/keybindings.json")
                            (json_dumps (keybindings_json keybindings)) w with
                    | inl e => (Raised e, w)
                    | inr w1 =>
                        match write_text (u ".vscode/latex.json")
                                (json_dumps (snippets_json snippets)) w1 with
                        | inl e => (Raised e, w1)
                        | inr w2 => print_summary cmds w2
                        end
                    end
                end
            end
        end
    end.

End Environment.

(** ** Notions of the specification *)

(** The text without one line feed at its end, if it has one. *)
Fixpoint chop_newline (t : list N) : list N :=
  match t with
  | [] => []
  | c :: t' =>
      match t' with
      | [] => if c =? LF then [] else [c]
      | _ :: _ => c :: chop_newline t'
      end
  end.

(** The lines without an empty last line, if there is one. *)
Fixpoint drop_trailing_empty (ls : list (list N)) : list (list N) :=
  match ls with
  | [] => []
  | l :: ls' =>
      match ls' with
      | [] => match l with [] => [] | _ :: _ => [l] end
      | _ :: _ => l :: drop_trailing_empty ls'
      end
  end.

(** Following the words of the specification: a line cut at its first
    marker that no escape character precedes.  [prev] is the character
    before the current position. *)
Fixpoint truncate_at_marker (prev : option N) (line : list N) : list N :=
  match line with
  | [] => []
  | c :: l' =>
      if (c =? PERCENT) && negb (bool_decide (prev = Some BACKSLASH)) then []
      else c :: truncate_at_marker (Some c) l'
  end.

(** [w] is a prefix of [s]; [w] occurs in [s]. *)
Fixpoint has_prefix (w s : list N) : bool :=
  match w, s with
  | [], _ => true
  | c :: w', c' :: s' => (c' =? c) && has_prefix w' s'
  | _ :: _, [] => false
  end.

Fixpoint contains (w s : list N) : bool :=
  has_prefix w s || match s with [] => false | _ :: s' => contains w s' end.

(** The text of a definition construct: the command, the name token in
    braces, and the bracketed count when [count] gives one; [ws1] to [ws6]
    are the white space between the parts. *)
Definition definition_construct (re : bool) (ws1 ws2 name ws3 ws4 : list N)
    (count : option (list N * list N * list N)) : list N :=
  [BACKSLASH] ++ (if re then u "re" else []) ++ u "newcommand" ++ ws1
  ++ [LBRACE] ++ ws2 ++ [BACKSLASH] ++ name ++ ws3 ++ [RBRACE] ++ ws4
  ++ match count with
     | Some (ws5, digits, ws6) => [LBRACKET] ++ ws5 ++ digits ++ ws6 ++ [RBRACKET]
     | None => []
     end.

(** The argument count that a match stands for. *)
Definition match_count (m : Match) : Z :=
  match group2 m with Some ds => decimal_of_digits ds | None => 0%Z end.

(** The count of a match has no more digits than [int] accepts. *)
Definition count_fits (m : Match) : bool :=
  match group2 m with
  | Some ds => (length ds <=? INT_MAX_STR_DIGITS)%nat
  | None => true
  end.

(** What one turn of the loop of [extract_commands] does to the table when
    nothing is raised. *)
Definition record_entry (cmds : gmap (list N) Z) (m : Match) : gmap (list N) Z :=
  <[group1 m := match_count m]> cmds.

(** The parts of a chord between its plus signs; the modifiers are all but
    the last. *)
Definition PLUS : N := 43.

Fixpoint split_on (sep : N) (s : list N) : list (list N) :=
  match s with
  | [] => [[]]
  | c :: s' =>
      if c =? sep then [] :: split_on sep s'
      else match split_on sep s' with
           | [] => [[c]]
           | w :: ws => (c :: w) :: ws
           end
  end.

Definition has_modifier (m chord : list N) : bool :=
  bool_decide (m ∈ removelast (split_on PLUS chord)).

(** The bindings come in pairs, one pair for each snippet entry: the
    primary and the fallback chord of the macro of the entry, with the body
    of the entry as the snippet of both. *)
Fixpoint paired (bindings : list Binding) (snippets : list (list N * SnippetEntry))
    : Prop :=
  match bindings, snippets with
  | [], [] => True
  | b1 :: b2 :: bs, (label, e) :: es =>
      (exists cmd base_key,
          (cmd, base_key) ∈ KEY_MAP
          /\ label = u "muse: " ++ cmd
          /\ (key b1, key b2) = chords cmd base_key)
      /\ snippet (args b1) = snippet (args b2)
      /\ body e = [snippet (args b1)]
      /\ paired bs es
  | _, _ => False
  end.

(** A line holds no line boundary. *)
Definition break_free (l : list N) : Prop :=
  Forall (fun c => is_linebreak c = false) l.

(** The text does not go on with a character of the class [p]. *)
Definition stops (p : N -> bool) (s : list N) : Prop :=
  match s with
  | [] => True
  | c :: _ => p c = false
  end.

(** Neither command of a definition construct occurs in the text. *)
Definition no_definition (s : list N) : bool :=
  negb (contains (u "\newcommand") s) && negb (contains (u "\renewcommand") s).

(** The parts of a definition construct are what the pattern asks for: white
    space between the tokens, a name of one or more name characters, one or
    more digits in the brackets.  Without a bracketed count, the text that
    follows [ws4] starts neither with white space nor with a bracket. *)
Definition parts_ok (ws1 ws2 name ws3 ws4 : list N)
    (count : option (list N * list N * list N)) (post : list N) : bool :=
  forallb is_space ws1 && forallb is_space ws2 && forallb is_space ws3
  && forallb is_space ws4
  && negb (bool_decide (name = [])) && forallb is_name_char name
  && match count with
     | Some (ws5, digits, ws6) =>
         forallb is_space ws5 && negb (bool_decide (digits = []))
         && forallb is_digit digits && forallb is_space ws6
     | None =>
         match post with
         | [] => true
         | c :: _ => negb (is_space c) && negb (c =? LBRACKET)
         end
     end.

(** The count that a definition construct declares. *)
Definition declared_count (count : option (list N * list N * list N)) : Z :=
  match count with
  | Some (_, digits, _) => decimal_of_digits digits
  | None => 0%Z
  end.

(** The number of digits of the count that a definition construct
    declares. *)
Definition count_length (count : option (list N * list N * list N)) : nat :=
  match count with
  | Some (_, digits, _) => length digits
  | None => O
  end.

(** The [n] code points from [c] on. *)
Fixpoint upto (n : nat) (c : N) : list N :=
  match n with
  | O => []
  | S n' => c :: upto n' (N.succ c)
  end.

(** A continuation never returns more text than it was given. *)
Definition shrinks (k : list N -> option Match) : Prop :=
  forall s m, k s = Some m -> (length (after m) <= length s)%nat.

(** Following the words of the specification: the default label of the
    second argument group of a macro with two arguments. *)
Definition second_label (cmd : list N) : list N :=
  if decide (cmd = u "modified") then u "修正後"
  else if decide (cmd = u "commented" \/ cmd = u "highlightComment") then u "コメント"
  else u "引数2".

(** What the synthesizer makes of one entry of the key map. *)
Definition bindings_of (cmds : gmap (list N) Z) (item : list N * list N)
    : list Binding :=
  match cmds !! fst item with
  | Some n_args =>
      [ make_binding (fst (chords (fst item) (snd item)))
          (build_snippet (fst item) n_args);
        make_binding (snd (chords (fst item) (snd item)))
          (build_snippet (fst item) n_args) ]
  | None => []
  end.

Definition snippets_of (cmds : gmap (list N) Z) (item : list N * list N)
    : list (list N * SnippetEntry) :=
  match cmds !! fst item with
  | Some n_args =>
      [ (u "muse: " ++ fst item,
         {| prefix := u "muse-" ++ fst item;
            body := [build_snippet (fst item) n_args];
            description :=
              u "muselab-correction: \" ++ fst item ++ u " (auto-generated)" |}) ]
  | None => []
  end.

(** The two output paths and the messages of [main]. *)
Definition KEYBINDINGS_PATH : list N := u ".vscode/keybindings.json".
Definition SNIPPETS_PATH : list N := u ".vscode/latex.json".
Definition USAGE : list N :=
  u "Usage: python3 generate_muse_bindings_mac_ctrl.py <path-to-sty>".

(** The two documents that a run writes for the table of a style file. *)
Definition keybindings_document (json_dumps : json -> list N)
    (cmds : gmap (list N) Z) : list N :=
  json_dumps (keybindings_json (generate_keybindings cmds)).

Definition snippets_document (json_dumps : json -> list N)
    (cmds : gmap (list N) Z) : list N :=
  json_dumps (snippets_json (generate_snippets cmds)).

(** The line holds a marker that no backslash precedes.  [prev_bs] tells
    whether the character before the line is a backslash. *)
Fixpoint has_marker (prev_bs : bool) (line : list N) : bool :=
  match line with
  | [] => false
  | c :: l' => ((c =? PERCENT) && negb prev_bs) || has_marker (c =? BACKSLASH) l'
  end.

(** Every match that a continuation returns satisfies [P]. *)
Definition returns (P : Match -> Prop) (k : list N -> option Match) : Prop :=
  forall s m, k s = Some m -> P m.

(** The groups of a match are what the pattern captures: a name of one or
    more name characters and, when the bracket group took part, one or more
    digits. *)
Definition well_formed_match (m : Match) : Prop :=
  group1 m <> []
  /\ Forall (fun c => is_name_char c = true) (group1 m)
  /\ match group2 m with
     | Some ds => ds <> [] /\ Forall (fun c => is_digit c = true) ds
     | None => True
     end.

(** The snippet entry of a macro. *)
Definition snippet_entry (cmd : list N) (n_args : Z) : SnippetEntry :=
  {| prefix := u "muse-" ++ cmd;
     body := [build_snippet cmd n_args];
     description := u "muselab-correction: \" ++ cmd ++ u " (auto-generated)" |}.

(** The argument group of position [i]. *)
Definition argument_group (i : Z) : list N :=
  u "{${" ++ str_int i ++ u ":引数" ++ str_int i ++ u "}}".

(** The chords of the whole key map. *)
Definition all_chords : list (list N) :=
  flat_map (fun item => [fst (chords (fst item) (snd item));
                         snd (chords (fst item) (snd item))]) KEY_MAP.

(** The parts of a definition construct up to the white space behind the
    closing brace are what the pattern asks for. *)
Definition header_ok (ws1 ws2 name ws3 ws4 : list N) : bool :=
  forallb is_space ws1 && forallb is_space ws2 && forallb is_space ws3
  && forallb is_space ws4
  && negb (bool_decide (name = [])) && forallb is_name_char name.

(** What follows an opening bracket is no count: [body], of white space and
    digits, is followed by a character [c] that is neither, and either
    [body] holds no digit or [c] is not the closing bracket. *)
Definition no_count (body : list N) (c : N) : bool :=
  negb (is_space c) && negb (is_digit c)
  && (forallb is_space body
      || (forallb (fun x => is_space x || is_digit x) body
          && negb (c =? RBRACKET))).

(** The label of a macro in the snippets object. *)
Definition snippet_label (item : list N * list N) : list N :=
  u "muse: " ++ fst item.

(** [t] is the text from some position of [body] on, up to the end. *)
Definition tail_of (body : list N) (c : N) (rest t : list N) : Prop :=
  exists x y, body = y ++ x /\ t = x ++ c :: rest.

(** * Properties *)

(** ** Sanity checks of the embedding *)

Example splitlines_ex :
  splitlines (u "a" ++ [CR; LF] ++ u "b" ++ [LF]) = [u "a"; u "b"]
  /\ splitlines [LF; LF] = [[]; []]
  /\ splitlines (u "a" ++ [LF; CR] ++ u "b") = [u "a"; []; u "b"].
Proof. split; [|split]; vm_compute; reflexivity. Qed.

Example strip_comments_ex :
  strip_comments (u "a\%b % c" ++ [LF] ++ u "%x" ++ [LF] ++ u "d")
  = u "a\%b " ++ [LF; LF] ++ u "d".
Proof. vm_compute. reflexivity. Qed.

Example extract_ex :
  extract_commands (u "\newcommand{\deleted}[1]{\sout{#1}} % x \newcommand{\no}"
                    ++ [LF] ++ u "\renewcommand { \added }  {\textbf{#1}}")
  = inr (<[u "added" := 0%Z]> (<[u "deleted" := 1%Z]> ∅)).
Proof. vm_compute. reflexivity. Qed.

Example build_snippet_ex :
  build_snippet (u "needRef") 3
  = u "\needRef{${TM_SELECTED_TEXT:$1}}{${2:引数2}}{${3:引数3}}"
  /\ build_snippet (u "added") 0 = u "\added ${TM_SELECTED_TEXT:$1}"
  /\ build_snippet (u "modified") 2
     = u "\modified{${TM_SELECTED_TEXT:$1}}{${2:修正後}}".
Proof. split; [|split]; vm_compute; reflexivity. Qed.

Example labels_ex :
  u "修正後" = [20462; 27491; 24460]
  /\ u "コメント" = [12467; 12513; 12531; 12488]
  /\ u "引数" = [24341; 25968].
Proof. split; [|split]; vm_compute; reflexivity. Qed.

(** ** Lines *)

Lemma list_ind2 {A : Type} (P : list A -> Prop) :
  P [] -> (forall a, P [a]) ->
  (forall a b l, P l -> P (b :: l) -> P (a :: b :: l)) ->
  forall l, P l.
Proof.
  intros H0 H1 H2 l.
  assert (H : P l /\ forall a, P (a :: l)); [|exact (proj1 H)].
  induction l as [|b l [IHl IHbl]]; split; auto.
Qed.

Lemma splitlines_break_free s : Forall break_free (splitlines s).
Proof.
  induction s as [|c|c c' rest IHrest IHc'] using list_ind2.
  - constructor.
  - simpl. destruct (is_linebreak c) eqn:Hc.
    + repeat constructor.
    + repeat constructor. exact Hc.
  - change (splitlines (c :: c' :: rest)) with
      (if is_linebreak c then
         [] :: (if (c =? CR) && (c' =? LF) then splitlines rest
                else splitlines (c' :: rest))
       else match splitlines (c' :: rest) with
            | [] => [[c]]
            | l :: ls => (c :: l) :: ls
            end).
    destruct (is_linebreak c) eqn:Hc.
    + constructor; [constructor|]. destruct ((c =? CR) && (c' =? LF)); assumption.
    + destruct (splitlines (c' :: rest)) as [|l ls].
      * repeat constructor. exact Hc.
      * inversion IHc' as [|? ? Hl Hls]; subst.
        constructor; [constructor; assumption | assumption].
Qed.

Lemma break_free_not_LF c : is_linebreak c = false -> (c =? LF) = false.
Proof.
  intros H. destruct (N.eqb_spec c LF) as [->|]; [discriminate H | reflexivity].
Qed.

Lemma skip_dots_break_free l : break_free l -> skip_dots l = [].
Proof.
  induction 1 as [|c l Hc _ IH]; simpl; [reflexivity|].
  rewrite (break_free_not_LF c Hc). exact IH.
Qed.

Lemma eqb_backslash c :
  (c =? BACKSLASH) = bool_decide (Some c = Some BACKSLASH).
Proof.
  destruct (N.eqb_spec c BACKSLASH) as [->|Hne].
  - symmetry. apply bool_decide_eq_true. reflexivity.
  - symmetry. apply bool_decide_eq_false. intros [= ?]. contradiction.
Qed.

(** On a line, the substitution cuts at the first marker that no backslash
    precedes. *)
Lemma sub_comment_from_truncate prev l :
  break_free l ->
  sub_comment_from (bool_decide (prev = Some BACKSLASH)) l
  = truncate_at_marker prev l.
Proof.
  intros Hl. revert prev.
  induction Hl as [|c l Hc Hl IH]; intros prev; simpl; [reflexivity|].
  rewrite (skip_dots_break_free l Hl). simpl. rewrite andb_true_r.
  destruct ((c =? PERCENT) && negb (bool_decide (prev = Some BACKSLASH)));
    [reflexivity|].
  f_equal. rewrite eqb_backslash. apply IH.
Qed.

Lemma sub_comment_truncate l :
  break_free l -> sub_comment l = truncate_at_marker None l.
Proof.
  intros Hl. unfold sub_comment.
  rewrite <- (sub_comment_from_truncate None l Hl). reflexivity.
Qed.

Lemma truncate_break_free prev l :
  break_free l -> break_free (truncate_at_marker prev l).
Proof.
  intros Hl. revert prev.
  induction Hl as [|c l Hc Hl IH]; intros prev; simpl; [constructor|].
  destruct ((c =? PERCENT) && negb (bool_decide (prev = Some BACKSLASH)));
    constructor; [assumption | apply IH].
Qed.

Lemma truncate_idem prev l :
  truncate_at_marker prev (truncate_at_marker prev l) = truncate_at_marker prev l.
Proof.
  revert prev. induction l as [|c l IH]; intros prev; simpl; [reflexivity|].
  destruct ((c =? PERCENT) && negb (bool_decide (prev = Some BACKSLASH))) eqn:E;
    simpl; [reflexivity|].
  rewrite E. f_equal. apply IH.
Qed.

Lemma truncate_prefix prev l :
  exists tail, l = truncate_at_marker prev l ++ tail.
Proof.
  revert prev. induction l as [|c l IH]; intros prev; simpl.
  - exists []. reflexivity.
  - destruct ((c =? PERCENT) && negb (bool_decide (prev = Some BACKSLASH))).
    + exists (c :: l). reflexivity.
    + destruct (IH (Some c)) as [tail Ht]. exists tail. simpl. congruence.
Qed.

Lemma sub_comment_break_free l : break_free l -> break_free (sub_comment l).
Proof.
  intros Hl. rewrite (sub_comment_truncate l Hl). apply truncate_break_free, Hl.
Qed.

Lemma sub_comment_idem l :
  break_free l -> sub_comment (sub_comment l) = sub_comment l.
Proof.
  intros Hl. rewrite (sub_comment_truncate (sub_comment l));
    [|apply sub_comment_break_free, Hl].
  rewrite (sub_comment_truncate l Hl). apply truncate_idem.
Qed.

Lemma stripped_lines_break_free s :
  Forall break_free (map sub_comment (splitlines s)).
Proof.
  apply Forall_map.
  eapply Forall_impl; [apply splitlines_break_free|].
  intros l Hl. apply sub_comment_break_free, Hl.
Qed.

Lemma splitlines_line l :
  break_free l -> splitlines l = match l with [] => [] | _ :: _ => [l] end.
Proof.
  induction 1 as [|c l Hc Hl IH]; [reflexivity|].
  simpl. rewrite Hc, IH. destruct l; reflexivity.
Qed.

Lemma splitlines_LF rest : splitlines (LF :: rest) = [] :: splitlines rest.
Proof. destruct rest; reflexivity. Qed.

Lemma splitlines_app_LF l rest :
  break_free l -> splitlines (l ++ LF :: rest) = l :: splitlines rest.
Proof.
  induction 1 as [|c l Hc Hl IH].
  - apply splitlines_LF.
  - change ((c :: l) ++ LF :: rest) with (c :: (l ++ LF :: rest)).
    cbn [splitlines]. rewrite Hc, IH. reflexivity.
Qed.

Lemma join_cons2 l l2 ls :
  join [LF] (l :: l2 :: ls) = l ++ LF :: join [LF] (l2 :: ls).
Proof. reflexivity. Qed.

Lemma drop_trailing_empty_cons2 l l2 ls :
  drop_trailing_empty (l :: l2 :: ls) = l :: drop_trailing_empty (l2 :: ls).
Proof. reflexivity. Qed.

(** Splitting undoes joining, up to an empty last line. *)
Lemma splitlines_join ls :
  Forall break_free ls -> splitlines (join [LF] ls) = drop_trailing_empty ls.
Proof.
  induction 1 as [|l ls Hl Hls IH]; [reflexivity|].
  destruct ls as [|l2 ls'].
  - simpl. rewrite (splitlines_line l Hl). reflexivity.
  - rewrite join_cons2, (splitlines_app_LF l _ Hl), IH. reflexivity.
Qed.

Lemma chop_newline_break_free l : break_free l -> chop_newline l = l.
Proof.
  induction 1 as [|c l Hc Hl IH]; [reflexivity|].
  simpl. destruct l as [|c' l'].
  - rewrite (break_free_not_LF c Hc). reflexivity.
  - rewrite IH. reflexivity.
Qed.

Lemma chop_newline_app_LF l : chop_newline (l ++ [LF]) = l.
Proof.
  induction l as [|c l IH]; [reflexivity|].
  change ((c :: l) ++ [LF]) with (c :: (l ++ [LF])).
  cbn [chop_newline]. rewrite IH. destruct l; reflexivity.
Qed.

Lemma chop_newline_app_cons l c r :
  chop_newline (l ++ LF :: c :: r) = l ++ LF :: chop_newline (c :: r).
Proof.
  induction l as [|c' l IH]; [reflexivity|].
  change ((c' :: l) ++ LF :: c :: r) with (c' :: (l ++ LF :: c :: r)).
  cbn [chop_newline]. rewrite IH. destruct l; reflexivity.
Qed.

Lemma chop_newline_last t : last t <> Some LF -> chop_newline t = t.
Proof.
  induction t as [|c t IH]; [reflexivity|].
  intros Hlast. destruct t as [|c' t'].
  - simpl. destruct (N.eqb_spec c LF) as [->|]; [|reflexivity].
    exfalso. apply Hlast. reflexivity.
  - change (chop_newline (c :: c' :: t')) with (c :: chop_newline (c' :: t')).
    rewrite IH; [reflexivity|]. exact Hlast.
Qed.

Lemma join_nil_drop ls : join [LF] ls = [] -> drop_trailing_empty ls = [].
Proof.
  destruct ls as [|l [|l2 ls']]; [reflexivity| |].
  - simpl. intros ->. reflexivity.
  - rewrite join_cons2. intros H. destruct l; discriminate H.
Qed.

Lemma drop_nil_join ls : drop_trailing_empty ls = [] -> join [LF] ls = [].
Proof.
  destruct ls as [|l [|l2 ls']]; [reflexivity| |].
  - simpl. destruct l; [reflexivity | discriminate].
  - rewrite drop_trailing_empty_cons2. discriminate.
Qed.

Lemma join_drop_trailing_empty ls :
  Forall break_free ls ->
  join [LF] (drop_trailing_empty ls) = chop_newline (join [LF] ls).
Proof.
  induction 1 as [|l ls Hl Hls IH]; [reflexivity|].
  destruct ls as [|l2 ls'].
  - destruct l as [|c l]; [reflexivity|].
    cbn [drop_trailing_empty join]. symmetry. apply chop_newline_break_free, Hl.
  - rewrite drop_trailing_empty_cons2, join_cons2.
    destruct (drop_trailing_empty (l2 :: ls')) as [|d ds] eqn:Hd.
    + rewrite (drop_nil_join _ Hd). rewrite chop_newline_app_LF. reflexivity.
    + rewrite join_cons2, IH.
      destruct (join [LF] (l2 :: ls')) as [|c r] eqn:Hj.
      * rewrite (join_nil_drop _ Hj) in Hd. discriminate Hd.
      * rewrite chop_newline_app_cons. reflexivity.
Qed.

Lemma Forall_drop_trailing_empty {P : list N -> Prop} ls :
  Forall P ls -> Forall P (drop_trailing_empty ls).
Proof.
  induction 1 as [|l ls Hl Hls IH]; [constructor|].
  destruct ls as [|l2 ls'].
  - destruct l; repeat constructor. exact Hl.
  - rewrite drop_trailing_empty_cons2. constructor; assumption.
Qed.

Lemma map_fixed {A : Type} (f : A -> A) (l : list A) :
  Forall (fun x => f x = x) l -> map f l = l.
Proof. induction 1 as [|x l Hx _ IH]; simpl; congruence. Qed.

Lemma stripped_lines_fixed s :
  Forall (fun l => sub_comment l = l) (map sub_comment (splitlines s)).
Proof.
  apply Forall_map.
  eapply Forall_impl; [apply splitlines_break_free|].
  intros l Hl. apply sub_comment_idem, Hl.
Qed.

(** The lines of the stripped text. *)
Lemma splitlines_strip_comments s :
  splitlines (strip_comments s)
  = drop_trailing_empty (map sub_comment (splitlines s)).
Proof. apply splitlines_join, stripped_lines_break_free. Qed.

Lemma strip_comments_again s :
  strip_comments (strip_comments s) = chop_newline (strip_comments s).
Proof.
  unfold strip_comments at 1. rewrite splitlines_strip_comments.
  rewrite map_fixed.
  - apply join_drop_trailing_empty, stripped_lines_break_free.
  - apply Forall_drop_trailing_empty, stripped_lines_fixed.
Qed.

(** ** C4: stripping twice *)

(** C4, as stated: stripping comments twice is the same as stripping once.
    It fails when the last line of the input is a comment after another
    line: the first pass leaves a line feed at the end, which the second
    pass drops. *)
Lemma strip_comments_not_idempotent :
  let s := u "x" ++ [LF] ++ u "% note" in
  strip_comments s = u "x" ++ [LF]
  /\ strip_comments (strip_comments s) = u "x"
  /\ strip_comments (strip_comments s) <> strip_comments s.
Proof. vm_compute. split; [|split]; [reflexivity | reflexivity | discriminate]. Qed.

(** C4, amended: stripping twice gives the stripped text without one line
    feed at its end, if it has one; so stripping is idempotent on every
    input whose stripped text does not end with a line feed. *)
Theorem strip_comments_twice (s : list N) :
  strip_comments (strip_comments s) = chop_newline (strip_comments s)
  /\ (last (strip_comments s) <> Some LF ->
      strip_comments (strip_comments s) = strip_comments s).
Proof.
  split; [apply strip_comments_again|].
  intros Hlast. rewrite strip_comments_again. apply chop_newline_last, Hlast.
Qed.

Lemma strip_comments_twice_witness :
  let s := u "a % b" ++ [CR; LF] ++ u "\%c" in
  last (strip_comments s) <> Some LF
  /\ strip_comments (strip_comments s) = strip_comments s.
Proof.
  intros s.
  assert (H : last (strip_comments s) <> Some LF) by (vm_compute; discriminate).
  split; [exact H | exact (proj2 (strip_comments_twice s) H)].
Defined.

(** ** C7: what the stripper keeps *)

(** C7, as stated: the line structure is kept unchanged, line terminators
    and a trailing newline included.  A text without any marker is changed
    when it ends with a line feed, and when it has another terminator than
    a line feed. *)
Lemma strip_comments_changes_terminators :
  strip_comments (u "a" ++ [LF]) = u "a"
  /\ strip_comments (u "a" ++ [LF]) <> u "a" ++ [LF]
  /\ strip_comments (u "a" ++ [CR; LF] ++ u "b") = u "a" ++ [LF] ++ u "b"
  /\ strip_comments (u "a" ++ [CR; LF] ++ u "b") <> u "a" ++ [CR; LF] ++ u "b".
Proof.
  vm_compute.
  split; [|split; [|split]]; [reflexivity | discriminate | reflexivity | discriminate].
Qed.

Lemma truncate_tail prev l tail :
  l = truncate_at_marker prev l ++ tail ->
  tail = [] \/ head tail = Some PERCENT.
Proof.
  revert prev. induction l as [|c l IH]; intros prev; simpl.
  - intros H. left. symmetry in H. exact H.
  - destruct ((c =? PERCENT) && negb (bool_decide (prev = Some BACKSLASH))) eqn:E.
    + simpl. intros <-. right. simpl.
      apply andb_true_iff in E. destruct E as [E _].
      apply N.eqb_eq in E. congruence.
    + simpl. intros [= H]. exact (IH _ H).
Qed.

(** C7, amended: the stripper cuts each line of the input at its first
    marker that no backslash precedes, and joins the lines with one line
    feed.  The lines are those of [str.splitlines]: every line terminator
    becomes a line feed and a terminator at the end of the text is dropped.
    The lines of the output are the cut lines of the input, without an
    empty last one.  Empty input yields empty output. *)
Theorem strip_comments_lines (s : list N) :
  strip_comments s = join [LF] (map (truncate_at_marker None) (splitlines s))
  /\ splitlines (strip_comments s)
     = drop_trailing_empty (map (truncate_at_marker None) (splitlines s))
  /\ Forall (fun l => exists tail,
               l = truncate_at_marker None l ++ tail
               /\ (tail = [] \/ head tail = Some PERCENT))
       (splitlines s)
  /\ strip_comments [] = [].
Proof.
  assert (Hmap : map sub_comment (splitlines s)
                 = map (truncate_at_marker None) (splitlines s)).
  { apply Forall_fmap_ext_1.
    eapply Forall_impl; [apply splitlines_break_free|].
    intros l Hl. apply sub_comment_truncate, Hl. }
  split; [|split; [|split]].
  - unfold strip_comments. rewrite Hmap. reflexivity.
  - rewrite splitlines_strip_comments, Hmap. reflexivity.
  - apply Forall_forall. intros l _.
    destruct (truncate_prefix None l) as [tail Ht].
    exists tail. split; [exact Ht | exact (truncate_tail None l tail Ht)].
  - reflexivity.
Qed.

(** ** Character classes *)

Lemma in_upto n a c : a <= c < a + N.of_nat n -> In c (upto n a).
Proof.
  revert a. induction n as [|n IH]; intros a Hc; [lia|].
  simpl. destruct (N.eq_dec a c) as [->|Hne]; [left; reflexivity|].
  right. apply IH. lia.
Qed.

Lemma is_digit_run c :
  is_digit c = true ->
  exists z, In z decimal_zeros /\ In c (map (N.add z) (upto 10 0)).
Proof.
  unfold is_digit, decimal_value.
  destruct (List.find (in_run c) decimal_zeros) as [z|] eqn:Hfind; [|discriminate].
  intros _. apply List.find_some in Hfind. destruct Hfind as [Hin Hrun].
  exists z. split; [exact Hin|].
  unfold in_run in Hrun. apply andb_true_iff in Hrun. destruct Hrun as [H1 H2].
  apply N.leb_le in H1. apply N.ltb_lt in H2.
  replace c with (z + (c - z)) by lia.
  apply in_map, in_upto. lia.
Qed.

Lemma digit_not_space c : is_digit c = true -> is_space c = false.
Proof.
  intros Hd. destruct (is_digit_run c Hd) as (z & Hz & Hc).
  assert (Hall : forallb (fun z => forallb (fun d => negb (is_space d))
                                     (map (N.add z) (upto 10 0)))
                   decimal_zeros = true) by (vm_compute; reflexivity).
  rewrite forallb_forall in Hall. specialize (Hall z Hz).
  rewrite forallb_forall in Hall. specialize (Hall c Hc).
  apply negb_true_iff in Hall. exact Hall.
Qed.

Lemma digit_not_rbracket c : is_digit c = true -> (c =? RBRACKET) = false.
Proof.
  intros Hd. destruct (N.eqb_spec c RBRACKET) as [->|]; [|reflexivity].
  vm_compute in Hd. discriminate Hd.
Qed.

Lemma name_char_small c : is_name_char c = true -> c < 123.
Proof.
  unfold is_name_char. intros H.
  destruct (N.ltb_spec c 123) as [|Hge]; [assumption|]. exfalso.
  apply orb_true_iff in H. destruct H as [H|H].
  - apply orb_true_iff in H. destruct H as [H|H];
      apply andb_true_iff in H; destruct H as [_ H]; apply N.leb_le in H; lia.
  - apply N.eqb_eq in H. lia.
Qed.

Lemma name_char_not_space c : is_name_char c = true -> is_space c = false.
Proof.
  intros Hn. pose proof (name_char_small c Hn) as Hc.
  assert (Hall : forallb (fun c => implb (is_name_char c) (negb (is_space c)))
                   (upto 123 0) = true) by (vm_compute; reflexivity).
  rewrite forallb_forall in Hall.
  specialize (Hall c (in_upto 123 0 c ltac:(lia))).
  rewrite Hn in Hall. apply negb_true_iff in Hall. exact Hall.
Qed.

Lemma space_not_name_char c : is_space c = true -> is_name_char c = false.
Proof.
  intros Hs. destruct (is_name_char c) eqn:Hn; [|reflexivity].
  rewrite (name_char_not_space c Hn) in Hs. discriminate Hs.
Qed.

Lemma space_not_digit c : is_space c = true -> is_digit c = false.
Proof.
  intros Hs. destruct (is_digit c) eqn:Hd; [|reflexivity].
  rewrite (digit_not_space c Hd) in Hs. discriminate Hs.
Qed.

Lemma stops_app p q ws s :
  Forall (fun c => q c = true) ws ->
  (forall c, q c = true -> p c = false) ->
  stops p s -> stops p (ws ++ s).
Proof.
  intros Hws Hqp Hs. destruct Hws as [|c ws Hc _]; [exact Hs|].
  simpl. apply Hqp, Hc.
Qed.

(** ** The matchers on text that they accept *)

Section MatcherRuns.
Context {R : Type}.
Implicit Types (k : list N -> option R) (r : R).

Lemma lit_run c k s : lit c k (c :: s) = k s.
Proof. unfold lit. rewrite N.eqb_refl. reflexivity. Qed.

Lemma lits_run w k s : lits w k (w ++ s) = k s.
Proof.
  revert s. induction w as [|c w IH]; intros s; [reflexivity|].
  simpl. rewrite N.eqb_refl. apply IH.
Qed.

Lemma star_run p k ws s r :
  Forall (fun c => p c = true) ws -> stops p s -> k s = Some r ->
  star p k (ws ++ s) = Some r.
Proof.
  intros Hws Hs Hk. induction Hws as [|c ws Hc _ IH].
  - destruct s as [|c s]; [exact Hk|]. simpl in *. rewrite Hs. exact Hk.
  - simpl. rewrite Hc, IH. reflexivity.
Qed.

Lemma star_cap_run p (k : list N -> list N -> option R) ws s r :
  Forall (fun c => p c = true) ws -> stops p s -> k ws s = Some r ->
  star_cap p k (ws ++ s) = Some r.
Proof.
  intros Hws Hs. revert k. induction Hws as [|c ws Hc _ IH]; intros k Hk.
  - destruct s as [|c s]; [exact Hk|]. simpl in *. rewrite Hs. exact Hk.
  - simpl. rewrite Hc, (IH (fun cap => k (c :: cap)) Hk). reflexivity.
Qed.

Lemma plus_cap_run p (k : list N -> list N -> option R) ws s r :
  ws <> [] -> Forall (fun c => p c = true) ws -> stops p s ->
  k ws s = Some r -> plus_cap p k (ws ++ s) = Some r.
Proof.
  intros Hne Hws Hs Hk. destruct Hws as [|c ws Hc Hws]; [contradiction|].
  simpl. rewrite Hc. apply star_cap_run; assumption.
Qed.

Lemma orelse_Some (a b : option R) r :
  orelse a b = Some r -> a = Some r \/ b = Some r.
Proof. destruct a; simpl; auto. Qed.

Lemma lits_inv w k s r :
  lits w k s = Some r -> exists s', s = w ++ s' /\ k s' = Some r.
Proof.
  revert s. induction w as [|c w IH]; intros s H.
  - exists s. split; [reflexivity | exact H].
  - cbn [lits] in H. unfold lit in H. destruct s as [|c' s]; [discriminate H|].
    destruct (N.eqb_spec c' c) as [->|]; [|discriminate H].
    destruct (IH s H) as (s' & -> & Hk). exists s'. split; [reflexivity | exact Hk].
Qed.

End MatcherRuns.

(** ** A match consumes text *)

Lemma lit_consumes c k s m :
  shrinks k -> lit c k s = Some m -> (length (after m) < length s)%nat.
Proof.
  intros Hk H. unfold lit in H. destruct s as [|c' s]; [discriminate H|].
  destruct (c' =? c); [|discriminate H].
  apply Hk in H. simpl. lia.
Qed.

Lemma lit_shrinks c k : shrinks k -> shrinks (lit c k).
Proof. intros Hk s m H. apply (lit_consumes c k s m Hk) in H. lia. Qed.

Lemma lits_shrinks w k : shrinks k -> shrinks (lits w k).
Proof.
  intros Hk. induction w as [|c w IH]; [exact Hk|].
  cbn [lits]. apply lit_shrinks, IH.
Qed.

Lemma opt_shrinks (m : (list N -> option Match) -> list N -> option Match) k :
  shrinks (m k) -> shrinks k -> shrinks (opt m k).
Proof.
  intros Hm Hk s r H. unfold opt in H.
  apply orelse_Some in H. destruct H as [H|H]; [exact (Hm s r H) | exact (Hk s r H)].
Qed.

Lemma star_shrinks p k : shrinks k -> shrinks (star p k).
Proof.
  intros Hk s. induction s as [|c s IH]; intros m H; simpl in H.
  - exact (Hk _ _ H).
  - destruct (p c); [|exact (Hk _ _ H)].
    apply orelse_Some in H. destruct H as [H|H]; [|exact (Hk _ _ H)].
    apply IH in H. simpl. lia.
Qed.

Lemma star_cap_shrinks p (k : list N -> list N -> option Match) :
  (forall cap, shrinks (k cap)) -> shrinks (star_cap p k).
Proof.
  intros Hk s. revert k Hk.
  induction s as [|c s IH]; intros k Hk m H; simpl in H.
  - exact (Hk _ _ _ H).
  - destruct (p c); [|exact (Hk _ _ _ H)].
    apply orelse_Some in H. destruct H as [H|H]; [|exact (Hk _ _ _ H)].
    apply IH in H; [simpl; lia|]. intros cap. apply Hk.
Qed.

Lemma plus_cap_shrinks p (k : list N -> list N -> option Match) :
  (forall cap, shrinks (k cap)) -> shrinks (plus_cap p k).
Proof.
  intros Hk s m H. unfold plus_cap in H.
  destruct s as [|c s]; [discriminate H|].
  destruct (p c); [|discriminate H].
  apply star_cap_shrinks in H; [simpl; lia|]. intros cap. apply Hk.
Qed.

Lemma bracket_group_shrinks name : shrinks (bracket_group name).
Proof.
  intros s m H. unfold bracket_group in H.
  apply orelse_Some in H. destruct H as [H|H].
  - revert s m H. apply lit_shrinks, star_shrinks, plus_cap_shrinks.
    intros digits. apply star_shrinks, lit_shrinks.
    intros s m [= <-]. simpl. lia.
  - injection H as <-. simpl. lia.
Qed.

Lemma pattern_match_consumes s m :
  pattern_match s = Some m -> (length (after m) < length s)%nat.
Proof.
  unfold pattern_match. apply lit_consumes.
  assert (Hk : shrinks (lits (u "newcommand")
                 (star is_space (lit LBRACE (star is_space (lit BACKSLASH
                   (plus_cap is_name_char (fun name =>
                      star is_space (lit RBRACE
                        (star is_space (bracket_group name))))))))))).
  { apply lits_shrinks, star_shrinks, lit_shrinks, star_shrinks, lit_shrinks,
      plus_cap_shrinks.
    intros name. apply star_shrinks, lit_shrinks, star_shrinks,
      bracket_group_shrinks. }
  apply opt_shrinks; [apply lits_shrinks|]; exact Hk.
Qed.

(** ** The scan *)

Lemma finditer_from_nil fuel : finditer_from fuel [] = [].
Proof. destruct fuel; reflexivity. Qed.

(** Fuel beyond the length of the text changes nothing: the scan is done
    when the text is used up. *)
Lemma finditer_from_enough fuel1 fuel2 s :
  (length s <= fuel1)%nat -> (length s <= fuel2)%nat ->
  finditer_from fuel1 s = finditer_from fuel2 s.
Proof.
  revert fuel2 s. induction fuel1 as [|fuel1 IH]; intros fuel2 s H1 H2.
  - destruct s; [|simpl in H1; lia]. rewrite !finditer_from_nil. reflexivity.
  - destruct fuel2 as [|fuel2].
    + destruct s; [|simpl in H2; lia]. reflexivity.
    + destruct s as [|c s]; [reflexivity|].
      cbn [finditer_from]. simpl in H1, H2.
      destruct (pattern_match (c :: s)) as [m|] eqn:Hm.
      * apply pattern_match_consumes in Hm. simpl in Hm.
        f_equal. apply IH; lia.
      * apply IH; lia.
Qed.

Lemma finditer_match s m :
  pattern_match s = Some m -> finditer s = m :: finditer (after m).
Proof.
  intros Hm. pose proof (pattern_match_consumes s m Hm) as Hlen.
  unfold finditer. destruct s as [|c s]; [simpl in Hlen; lia|].
  cbn [length finditer_from]. rewrite Hm. f_equal.
  simpl in Hlen. apply finditer_from_enough; lia.
Qed.

Lemma finditer_skip c s :
  pattern_match (c :: s) = None -> finditer (c :: s) = finditer s.
Proof.
  intros Hm. unfold finditer. cbn [length finditer_from]. rewrite Hm. reflexivity.
Qed.

(** ** Where a match can start *)

Lemma has_prefix_app w s : has_prefix w (w ++ s) = true.
Proof.
  induction w as [|c w IH]; [reflexivity|].
  simpl. rewrite N.eqb_refl. exact IH.
Qed.

Lemma contains_prefix w s : has_prefix w s = true -> contains w s = true.
Proof. intros H. destruct s; simpl; rewrite H; reflexivity. Qed.

Lemma contains_cons w c s : contains w (c :: s) = false -> contains w s = false.
Proof. simpl. intros H. apply orb_false_iff in H. exact (proj2 H). Qed.

Lemma contains_not_prefix w s : contains w s = false -> has_prefix w s = false.
Proof.
  intros H. destruct (has_prefix w s) eqn:E; [|reflexivity].
  rewrite (contains_prefix w s E) in H. discriminate H.
Qed.

Lemma no_definition_cons c s : no_definition (c :: s) = true -> no_definition s = true.
Proof.
  unfold no_definition. intros H. apply andb_true_iff in H. destruct H as [H1 H2].
  apply negb_true_iff in H1, H2.
  rewrite (contains_cons _ _ _ H1), (contains_cons _ _ _ H2). reflexivity.
Qed.

Lemma no_definition_prefix s :
  no_definition s = true ->
  has_prefix (u "\newcommand") s = false /\ has_prefix (u "\renewcommand") s = false.
Proof.
  unfold no_definition. intros H. apply andb_true_iff in H. destruct H as [H1 H2].
  apply negb_true_iff in H1, H2.
  split; apply contains_not_prefix; assumption.
Qed.

(** A match starts with one of the two commands. *)
Lemma pattern_match_prefix s m :
  pattern_match s = Some m ->
  has_prefix (u "\newcommand") s = true \/ has_prefix (u "\renewcommand") s = true.
Proof.
  unfold pattern_match. intros H.
  unfold lit in H. destruct s as [|c s]; [discriminate H|].
  destruct (N.eqb_spec c BACKSLASH) as [->|]; [|discriminate H].
  unfold opt in H. apply orelse_Some in H. destruct H as [H|H].
  - right. apply lits_inv in H. destruct H as (s1 & -> & H).
    apply lits_inv in H. destruct H as (s2 & -> & _).
    change (BACKSLASH :: u "re" ++ u "newcommand" ++ s2)
      with ((BACKSLASH :: u "re") ++ u "newcommand" ++ s2).
    rewrite app_assoc.
    replace ((BACKSLASH :: u "re") ++ u "newcommand") with (u "\renewcommand")
      by (vm_compute; reflexivity).
    apply has_prefix_app.
  - left. apply lits_inv in H. destruct H as (s1 & -> & _).
    change (BACKSLASH :: u "newcommand" ++ s1)
      with ((BACKSLASH :: u "newcommand") ++ s1).
    replace (BACKSLASH :: u "newcommand") with (u "\newcommand")
      by (vm_compute; reflexivity).
    apply has_prefix_app.
Qed.

Lemma pattern_match_no_definition s :
  no_definition s = true -> pattern_match s = None.
Proof.
  intros H. apply no_definition_prefix in H. destruct H as [H1 H2].
  destruct (pattern_match s) as [m|] eqn:Hm; [|reflexivity].
  apply pattern_match_prefix in Hm. destruct Hm as [Hm|Hm]; congruence.
Qed.

(** A text in which neither command occurs holds no match. *)
Lemma finditer_no_definition s : no_definition s = true -> finditer s = [].
Proof.
  induction s as [|c s IH]; intros H; [reflexivity|].
  rewrite finditer_skip; [|apply pattern_match_no_definition, H].
  apply IH. exact (no_definition_cons c s H).
Qed.

(** A word that is a prefix of [t ++ x :: X] but not of [t] has [x] at the
    position where [t] ends. *)
Lemma has_prefix_app_split w t x X :
  has_prefix w (t ++ x :: X) = true ->
  has_prefix w t = true \/ w !! length t = Some x.
Proof.
  revert t. induction w as [|a w IH]; intros t H; [left; reflexivity|].
  destruct t as [|b t].
  - right. simpl in H. apply andb_true_iff in H. destruct H as [H _].
    apply N.eqb_eq in H. simpl. congruence.
  - simpl in H. apply andb_true_iff in H. destruct H as [Hb H].
    destruct (IH t H) as [Ht|Ht].
    + left. simpl. rewrite Hb, Ht. reflexivity.
    + right. exact Ht.
Qed.

Lemma no_backslash_inside w i :
  w = u "\newcommand" \/ w = u "\renewcommand" ->
  w !! S i <> Some BACKSLASH.
Proof.
  intros Hw Hi.
  assert (Hn : bool_decide (BACKSLASH ∉ u "newcommand") = true)
    by (vm_compute; reflexivity).
  assert (Hr : bool_decide (BACKSLASH ∉ u "renewcommand") = true)
    by (vm_compute; reflexivity).
  apply bool_decide_eq_true in Hn, Hr.
  destruct Hw as [-> | ->].
  - replace (u "\newcommand") with (BACKSLASH :: u "newcommand") in Hi
      by (vm_compute; reflexivity).
    apply Hn. exact (list_elem_of_lookup_2 (u "newcommand") i _ Hi).
  - replace (u "\renewcommand") with (BACKSLASH :: u "renewcommand") in Hi
      by (vm_compute; reflexivity).
    apply Hr. exact (list_elem_of_lookup_2 (u "renewcommand") i _ Hi).
Qed.

(** No match starts in a text before a backslash if neither command occurs
    in that text. *)
Lemma finditer_skip_before pre X :
  no_definition pre = true ->
  finditer (pre ++ BACKSLASH :: X) = finditer (BACKSLASH :: X).
Proof.
  induction pre as [|c pre IH]; intros H; [reflexivity|].
  change ((c :: pre) ++ BACKSLASH :: X) with (c :: (pre ++ BACKSLASH :: X)).
  rewrite finditer_skip; [apply IH, (no_definition_cons c pre H)|].
  destruct (pattern_match (c :: pre ++ BACKSLASH :: X)) as [m|] eqn:Hm; [|reflexivity].
  exfalso. apply no_definition_prefix in H. destruct H as [H1 H2].
  apply pattern_match_prefix in Hm.
  change (c :: pre ++ BACKSLASH :: X) with ((c :: pre) ++ BACKSLASH :: X) in Hm.
  destruct Hm as [Hm|Hm]; apply has_prefix_app_split in Hm;
    destruct Hm as [Hm|Hm]; try congruence;
    simpl length in Hm; revert Hm; apply no_backslash_inside; auto.
Qed.

(** ** The pattern on a definition construct *)

Lemma forallb_Forall (p : N -> bool) l :
  forallb p l = true -> Forall (fun c => p c = true) l.
Proof.
  intros H. apply Forall_forall. intros c Hc.
  rewrite forallb_forall in H. apply H. apply list_elem_of_In, Hc.
Qed.

Lemma lits_re_newcommand {R : Type} (k : list N -> option R) rest :
  lits (u "re") k (u "newcommand" ++ rest) = None.
Proof. vm_compute. reflexivity. Qed.

Lemma stops_nonempty p q l s :
  l <> [] -> Forall (fun c => q c = true) l ->
  (forall c, q c = true -> p c = false) -> stops p (l ++ s).
Proof.
  intros Hne Hl Hqp. destruct Hl as [|c l Hc _]; [contradiction|].
  simpl. apply Hqp, Hc.
Qed.

(** The bracket group on a well-formed bracketed count. *)
Lemma bracket_group_count name ws5 digits ws6 post :
  Forall (fun c => is_space c = true) ws5 ->
  digits <> [] -> Forall (fun c => is_digit c = true) digits ->
  Forall (fun c => is_space c = true) ws6 ->
  bracket_group name (LBRACKET :: ws5 ++ digits ++ ws6 ++ RBRACKET :: post)
  = Some {| group1 := name; group2 := Some digits; after := post |}.
Proof.
  intros H5 Hne Hd H6. unfold bracket_group.
  rewrite lit_run.
  erewrite star_run; [reflexivity | exact H5 | |].
  - apply (stops_nonempty is_space is_digit); auto using digit_not_space.
  - apply plus_cap_run; [exact Hne | exact Hd | |].
    + apply (stops_app is_digit is_space); [exact H6 | apply space_not_digit |].
      vm_compute. reflexivity.
    + apply star_run; [exact H6 | vm_compute; reflexivity |].
      rewrite lit_run. reflexivity.
Qed.

(** The bracket group when no bracket follows. *)
Lemma bracket_group_absent name post :
  match post with [] => True | c :: _ => (c =? LBRACKET) = false end ->
  bracket_group name post
  = Some {| group1 := name; group2 := None; after := post |}.
Proof.
  intros H. unfold bracket_group, lit.
  destruct post as [|c post]; [reflexivity|]. rewrite H. reflexivity.
Qed.

(** The pattern matches a definition construct at the start of a text; the
    groups are its name and its digits, and the match ends where the
    construct ends. *)
Lemma pattern_match_construct re ws1 ws2 name ws3 ws4 count post :
  parts_ok ws1 ws2 name ws3 ws4 count post = true ->
  pattern_match (definition_construct re ws1 ws2 name ws3 ws4 count ++ post)
  = Some {| group1 := name;
            group2 := match count with
                      | Some (_, digits, _) => Some digits
                      | None => None
                      end;
            after := post |}.
Proof.
  unfold parts_ok. intros H.
  repeat (apply andb_true_iff in H; destruct H as [H ?]).
  match goal with H : negb (bool_decide (name = [])) = true |- _ =>
    apply negb_true_iff, bool_decide_eq_false in H; rename H into Hname end.
  repeat match goal with H : forallb _ _ = true |- _ =>
    apply forallb_Forall in H end.
  set (r := {| group1 := name;
               group2 := match count with
                         | Some (_, digits, _) => Some digits
                         | None => None
                         end;
               after := post |}).
  set (K := star is_space (lit LBRACE (star is_space (lit BACKSLASH
              (plus_cap is_name_char (fun name =>
                 star is_space (lit RBRACE
                   (star is_space (bracket_group name))))))))).
  set (rest := ws1 ++ [LBRACE] ++ ws2 ++ [BACKSLASH] ++ name ++ ws3 ++ [RBRACE]
               ++ ws4
               ++ match count with
                  | Some (ws5, digits, ws6) =>
                      [LBRACKET] ++ ws5 ++ digits ++ ws6 ++ [RBRACKET]
                  | None => []
                  end ++ post).
  assert (HK : K rest = Some r).
  { unfold K, rest. cbn [app].
    apply star_run; [assumption | vm_compute; reflexivity |].
    rewrite lit_run.
    apply star_run; [assumption | vm_compute; reflexivity |].
    rewrite lit_run.
    apply plus_cap_run; [assumption | assumption | |].
    { apply (stops_app is_name_char is_space);
        [assumption | apply space_not_name_char | vm_compute; reflexivity]. }
    apply star_run; [assumption | vm_compute; reflexivity |].
    rewrite lit_run.
    destruct count as [[[ws5 digits] ws6]|].
    - repeat (match goal with H : _ && _ = true |- _ =>
                apply andb_true_iff in H; destruct H as [H ?] end).
      match goal with H : negb (bool_decide (digits = [])) = true |- _ =>
        apply negb_true_iff, bool_decide_eq_false in H; rename H into Hdigits end.
      repeat match goal with H : forallb _ _ = true |- _ =>
        apply forallb_Forall in H end.
      cbn [app]. rewrite <- !app_assoc. cbn [app].
      apply star_run; [assumption | vm_compute; reflexivity |].
      apply bracket_group_count; assumption.
    - cbn [app].
      match goal with H : match post with [] => true | _ => _ end = true |- _ =>
        rename H into Hpost end.
      apply star_run; [assumption | |].
      + destruct post as [|c post]; [exact I|]. simpl.
        apply andb_true_iff in Hpost. destruct Hpost as [Hpost _].
        apply negb_true_iff in Hpost. exact Hpost.
      + apply bracket_group_absent.
        destruct post as [|c post]; [exact I|].
        apply andb_true_iff in Hpost. destruct Hpost as [_ Hpost].
        apply negb_true_iff in Hpost. exact Hpost. }
  unfold definition_construct, pattern_match.
  rewrite <- !app_assoc. cbn [app]. rewrite lit_run.
  change (opt (lits (u "re")) (lits (u "newcommand") K)
            ((if re then u "re" else []) ++ u "newcommand" ++ rest) = Some r).
  unfold opt.
  destruct re.
  - rewrite !lits_run, HK. reflexivity.
  - cbn [app]. rewrite lits_re_newcommand, lits_run, HK. reflexivity.
Qed.

(** ** The table of the extractor *)

Lemma fold_record_other (ms : list Match) (cmds : gmap (list N) Z) (name : list N) :
  Forall (fun m => group1 m <> name) ms ->
  fold_left record_entry ms cmds !! name = cmds !! name.
Proof.
  intros Hms. revert cmds.
  induction Hms as [|m ms Hm _ IH]; intros cmds; [reflexivity|].
  simpl. rewrite IH. unfold record_entry. apply lookup_insert_ne, Hm.
Qed.

Lemma fold_record_last (ms1 : list Match) (m : Match) (ms2 : list Match)
    (cmds : gmap (list N) Z) :
  Forall (fun m' => group1 m' <> group1 m) ms2 ->
  fold_left record_entry (ms1 ++ m :: ms2) cmds !! group1 m
  = Some (match_count m).
Proof.
  intros Hms2. rewrite fold_left_app. simpl.
  rewrite (fold_record_other ms2 _ _ Hms2).
  unfold record_entry. apply lookup_insert_eq.
Qed.

(** [int] on digits within and beyond the limit. *)
Lemma int_of_digits_fits ds :
  (length ds <=? INT_MAX_STR_DIGITS)%nat = true ->
  int_of_digits ds = inr (decimal_of_digits ds).
Proof.
  intros H. apply Nat.leb_le in H. unfold int_of_digits.
  destruct (Nat.ltb_spec INT_MAX_STR_DIGITS (length ds)); [lia | reflexivity].
Qed.

Lemma int_of_digits_overlong ds :
  (length ds <=? INT_MAX_STR_DIGITS)%nat = false ->
  int_of_digits ds = inl ValueError.
Proof.
  intros H. apply Nat.leb_gt in H. unfold int_of_digits.
  destruct (Nat.ltb_spec INT_MAX_STR_DIGITS (length ds)); [reflexivity | lia].
Qed.

Lemma record_match_fits (cmds : gmap (list N) Z) (m : Match) :
  count_fits m = true -> record_match cmds m = inr (record_entry cmds m).
Proof.
  unfold count_fits, record_match, record_entry, match_count.
  destruct (group2 m) as [ds|]; [|reflexivity].
  intros H. rewrite (int_of_digits_fits ds H). reflexivity.
Qed.

Lemma record_match_overlong (cmds : gmap (list N) Z) (m : Match) :
  count_fits m = false -> record_match cmds m = inl ValueError.
Proof.
  unfold count_fits, record_match.
  destruct (group2 m) as [ds|]; [|discriminate].
  intros H. rewrite (int_of_digits_overlong ds H). reflexivity.
Qed.

(** The loop of the extractor: the table of all matches when every count
    is within the limit of [int], [ValueError] otherwise. *)
Lemma for_each_fits (ms : list Match) (cmds : gmap (list N) Z) :
  forallb count_fits ms = true ->
  for_each record_match ms cmds = inr (fold_left record_entry ms cmds).
Proof.
  revert cmds. induction ms as [|m ms IH]; intros cmds H; [reflexivity|].
  simpl in H. apply andb_true_iff in H. destruct H as [Hm Hms].
  simpl. rewrite (record_match_fits cmds m Hm). apply IH, Hms.
Qed.

Lemma for_each_overlong (ms : list Match) (cmds : gmap (list N) Z) :
  forallb count_fits ms = false ->
  for_each record_match ms cmds = inl ValueError.
Proof.
  revert cmds. induction ms as [|m ms IH]; intros cmds H; [discriminate H|].
  simpl in H. simpl. destruct (count_fits m) eqn:Hm.
  - rewrite (record_match_fits cmds m Hm). apply IH, H.
  - rewrite (record_match_overlong cmds m Hm). reflexivity.
Qed.

Lemma for_each_inv (ms : list Match) (cmds cmds' : gmap (list N) Z) :
  for_each record_match ms cmds = inr cmds' ->
  forallb count_fits ms = true /\ cmds' = fold_left record_entry ms cmds.
Proof.
  intros H. destruct (forallb count_fits ms) eqn:Hfits.
  - rewrite (for_each_fits ms cmds Hfits) in H. injection H as <-.
    split; reflexivity.
  - rewrite (for_each_overlong ms cmds Hfits) in H. discriminate H.
Qed.

(** ** C3: the last definition wins *)

(** C3, as stated: the table maps a name to the count of its last
    definition and no error is reported.  When a bracketed count has more
    digits than [int] accepts, the extractor ends with [ValueError] and
    returns no table. *)
Lemma extract_commands_last_raises :
  let text := u "\newcommand{\added}[1]{}" ++ [LF]
              ++ u "\renewcommand{\added}[" ++ replicate 4301 49 ++ u "]{}" in
  extract_commands text = inl ValueError
  /\ forall cmds, extract_commands text <> inr cmds.
Proof.
  intros text.
  assert (H : extract_commands text = inl ValueError) by (vm_compute; reflexivity).
  split; [exact H|]. intros cmds. rewrite H. discriminate.
Qed.

(** C3, amended: when every bracketed count that the scan finds has at most
    4300 digits, the extractor returns a table, without an error, and the
    table maps the name of a definition to the argument count of the last
    match of that name in scan order; earlier matches of the name are
    overwritten.  When some count has more digits, the extractor ends with
    [ValueError]. *)
Theorem extract_commands_last_wins (text : list N) (ms1 ms2 : list Match)
    (m : Match) :
  finditer (strip_comments text) = ms1 ++ m :: ms2 ->
  Forall (fun m' => group1 m' <> group1 m) ms2 ->
  if forallb count_fits (ms1 ++ m :: ms2)
  then exists cmds,
         extract_commands text = inr cmds
         /\ cmds !! group1 m = Some (match_count m)
  else extract_commands text = inl ValueError.
Proof.
  intros Hscan Hlast. unfold extract_commands. rewrite Hscan.
  destruct (forallb count_fits (ms1 ++ m :: ms2)) eqn:Hfits.
  - rewrite (for_each_fits _ _ Hfits). eexists. split; [reflexivity|].
    apply fold_record_last, Hlast.
  - apply for_each_overlong, Hfits.
Qed.

Lemma extract_commands_last_wins_witness :
  let text := u "\newcommand{\added}[1]{\textbf{#1}}" ++ [LF]
              ++ u "\newcommand{\deleted}{}" ++ [LF]
              ++ u "\renewcommand{\added}[3]{#1#2#3} % again" in
  exists cmds,
    extract_commands text = inr cmds /\ cmds !! u "added" = Some 3%Z.
Proof.
  intros text.
  pose proof (extract_commands_last_wins text
           [ {| group1 := u "added"; group2 := Some (u "1");
                after := u "{\textbf{#1}}" ++ [LF]
                         ++ u "\newcommand{\deleted}{}" ++ [LF]
                         ++ u "\renewcommand{\added}[3]{#1#2#3} " |};
             {| group1 := u "deleted"; group2 := None;
                after := u "{}" ++ [LF]
                         ++ u "\renewcommand{\added}[3]{#1#2#3} " |} ]
           []
           {| group1 := u "added"; group2 := Some (u "3");
              after := u "{#1#2#3} " |}) as H.
  cbn [app forallb count_fits group2] in H.
  replace (length (u "1") <=? INT_MAX_STR_DIGITS)%nat with true in H
    by (vm_compute; reflexivity).
  replace (length (u "3") <=? INT_MAX_STR_DIGITS)%nat with true in H
    by (vm_compute; reflexivity).
  apply H.
  - vm_compute. reflexivity.
  - constructor.
Defined.

(** ** C2: one definition construct *)

Lemma declared_count_match name count post :
  match_count {| group1 := name;
                 group2 := match count with
                           | Some (_, digits, _) => Some digits
                           | None => None
                           end;
                 after := post |}
  = declared_count count.
Proof. destruct count as [[[ws5 digits] ws6]|]; reflexivity. Qed.

Lemma count_fits_match name count post :
  count_fits {| group1 := name;
                group2 := match count with
                          | Some (_, digits, _) => Some digits
                          | None => None
                          end;
                after := post |}
  = (count_length count <=? INT_MAX_STR_DIGITS)%nat.
Proof. destruct count as [[[ws5 digits] ws6]|]; reflexivity. Qed.

(** C2, as stated: a construct with the bracketed count [N] yields the entry
    [N].  For a count of more than 4300 digits the extractor ends with
    [ValueError] and yields no table. *)
Lemma extract_commands_long_count :
  let text := u "\newcommand{\added}[" ++ replicate 4301 49 ++ u "]{#1}" in
  extract_commands text = inl ValueError
  /\ forall cmds, extract_commands text <> inr cmds.
Proof.
  intros text.
  assert (H : extract_commands text = inl ValueError) by (vm_compute; reflexivity).
  split; [exact H|]. intros cmds. rewrite H. discriminate.
Qed.

(** C2, amended: when the comment-stripped text holds one definition
    construct, for the name [name], and its bracketed count has at most 4300
    digits, the table maps [name] to the bracketed count, and to 0 when the
    construct has no bracketed count; the table holds nothing else.  When
    the count has more digits, the extractor ends with [ValueError]. *)
Theorem extract_commands_single (text pre post : list N) (re : bool)
    (ws1 ws2 name ws3 ws4 : list N) (count : option (list N * list N * list N)) :
  strip_comments text
  = pre ++ definition_construct re ws1 ws2 name ws3 ws4 count ++ post ->
  no_definition pre = true ->
  no_definition post = true ->
  parts_ok ws1 ws2 name ws3 ws4 count post = true ->
  if (count_length count <=? INT_MAX_STR_DIGITS)%nat
  then extract_commands text = inr {[ name := declared_count count ]}
  else extract_commands text = inl ValueError.
Proof.
  intros Htext Hpre Hpost Hparts.
  unfold extract_commands. rewrite Htext.
  assert (Hc : exists X,
             definition_construct re ws1 ws2 name ws3 ws4 count ++ post
             = BACKSLASH :: X) by (eexists; reflexivity).
  destruct Hc as [X Hc]. rewrite Hc, (finditer_skip_before pre X Hpre), <- Hc.
  rewrite (finditer_match _ _
             (pattern_match_construct re ws1 ws2 name ws3 ws4 count post Hparts)).
  cbn [after]. rewrite (finditer_no_definition post Hpost).
  cbn [for_each].
  destruct (count_length count <=? INT_MAX_STR_DIGITS)%nat eqn:Hfits.
  - rewrite record_match_fits by (rewrite count_fits_match; exact Hfits).
    unfold record_entry. cbn [group1]. rewrite declared_count_match, insert_empty.
    reflexivity.
  - rewrite record_match_overlong by (rewrite count_fits_match; exact Hfits).
    reflexivity.
Qed.

Lemma extract_commands_single_witness :
  (let text := u "% macros" ++ [LF] ++ u "\usepackage{x}" ++ [CR; LF]
               ++ u "\newcommand{\needRef} [12]{\cite{#1}}" in
   extract_commands text = inr {[ u "needRef" := 12%Z ]})
  /\ (let text := u "\renewcommand{ \added }{\textbf{#1}} % no count" in
      extract_commands text = inr {[ u "added" := 0%Z ]}).
Proof.
  split.
  - exact (extract_commands_single
             (u "% macros" ++ [LF] ++ u "\usepackage{x}" ++ [CR; LF]
              ++ u "\newcommand{\needRef} [12]{\cite{#1}}")
             (LF :: u "\usepackage{x}" ++ [LF]) (u "{\cite{#1}}")
             false [] [] (u "needRef") [] (u " ") (Some ([], u "12", []))
             eq_refl eq_refl eq_refl eq_refl).
  - exact (extract_commands_single
             (u "\renewcommand{ \added }{\textbf{#1}} % no count")
             [] (u "{\textbf{#1}} ")
             true [] (u " ") (u "added") (u " ") [] None
             eq_refl eq_refl eq_refl eq_refl).
Defined.

(** ** C1: the minimal style file *)

(** The scan of a text that starts with a definition construct. *)
Lemma finditer_construct pre re ws1 ws2 name ws3 ws4 count post :
  no_definition pre = true ->
  parts_ok ws1 ws2 name ws3 ws4 count post = true ->
  finditer (pre ++ definition_construct re ws1 ws2 name ws3 ws4 count ++ post)
  = {| group1 := name;
       group2 := match count with
                 | Some (_, digits, _) => Some digits
                 | None => None
                 end;
       after := post |} :: finditer post.
Proof.
  intros Hpre Hparts.
  assert (Hc : exists X,
             definition_construct re ws1 ws2 name ws3 ws4 count ++ post
             = BACKSLASH :: X) by (eexists; reflexivity).
  destruct Hc as [X Hc]. rewrite Hc, (finditer_skip_before pre X Hpre), <- Hc.
  rewrite (finditer_match _ _
             (pattern_match_construct re ws1 ws2 name ws3 ws4 count post Hparts)).
  reflexivity.
Qed.

(** C1: for a style file that defines [deleted] with one argument and
    [modified] with two, and nothing else, the pipeline yields four
    bindings and a snippets object with the keys [muse: deleted] and
    [muse: modified]. *)
Theorem end_to_end_minimal (text pre mid post : list N) :
  strip_comments text
  = pre ++ u "\newcommand{\deleted}[1]" ++ mid
    ++ u "\newcommand{\modified}[2]" ++ post ->
  no_definition pre = true ->
  no_definition mid = true ->
  no_definition post = true ->
  let cmds : gmap (list N) Z :=
    <[u "modified" := 2%Z]> (<[u "deleted" := 1%Z]> ∅) in
  extract_commands text = inr cmds
  /\ length (generate_keybindings cmds) = 4%nat
  /\ map fst (generate_snippets cmds) = [u "muse: deleted"; u "muse: modified"].
Proof.
  intros Htext Hpre Hmid Hpost cmds.
  split; [|split; vm_compute; reflexivity].
  unfold extract_commands. rewrite Htext.
  replace (u "\newcommand{\deleted}[1]")
    with (definition_construct false [] [] (u "deleted") [] []
            (Some ([], u "1", []))) by (vm_compute; reflexivity).
  replace (u "\newcommand{\modified}[2]")
    with (definition_construct false [] [] (u "modified") [] []
            (Some ([], u "2", []))) by (vm_compute; reflexivity).
  rewrite (finditer_construct pre); [|exact Hpre | reflexivity].
  rewrite (finditer_construct mid); [|exact Hmid | reflexivity].
  rewrite (finditer_no_definition post Hpost).
  rewrite for_each_fits by (vm_compute; reflexivity).
  reflexivity.
Qed.

Lemma end_to_end_minimal_witness :
  let text := u "\newcommand{\deleted}[1]{...}" ++ [LF]
              ++ u "\newcommand{\modified}[2]{...}" in
  exists cmds,
    extract_commands text = inr cmds
    /\ length (generate_keybindings cmds) = 4%nat
    /\ map fst (generate_snippets cmds)
       = [u "muse: deleted"; u "muse: modified"].
Proof.
  intros text. eexists.
  exact (end_to_end_minimal text [] (u "{...}" ++ [LF]) (u "{...}")
           eq_refl eq_refl eq_refl eq_refl).
Defined.

(** ** C5: the second argument group *)

(** C5: with two arguments, the snippet is the invocation with the selection
    as first argument group and a second group that holds the label of the
    macro: the label for corrected text for [modified], the label for a
    comment for [commented] and [highlightComment], and the label argument
    2 for every other macro. *)
Theorem build_snippet_two_args (cmd : list N) :
  build_snippet cmd 2
  = u "\" ++ cmd ++ u "{${TM_SELECTED_TEXT:$1}}"
    ++ u "{${2:" ++ second_label cmd ++ u "}}"
  /\ second_label (u "modified") = u "修正後"
  /\ second_label (u "commented") = u "コメント"
  /\ second_label (u "highlightComment") = u "コメント"
  /\ (cmd <> u "modified" -> cmd <> u "commented" ->
      cmd <> u "highlightComment" -> second_label cmd = u "引数2").
Proof.
  split; [|split; [|split; [|split]]]; try (vm_compute; reflexivity).
  - unfold build_snippet, second_label.
    change (2 <=? 0)%Z with false. change (2 =? 1)%Z with false.
    change (2 =? 2)%Z with true. cbv iota.
    destruct (decide (cmd = u "modified")) as [_|_];
      [|destruct (decide (cmd = u "commented" \/ cmd = u "highlightComment"))
          as [_|_]];
      do 2 f_equal; vm_compute; reflexivity.
  - intros H1 H2 H3. unfold second_label.
    destruct (decide (cmd = u "modified")) as [|_]; [contradiction|].
    destruct (decide (cmd = u "commented" \/ cmd = u "highlightComment"))
      as [[|]|_]; [contradiction | contradiction | reflexivity].
Qed.

Lemma build_snippet_two_args_witness :
  build_snippet (u "deleted") 2
  = u "\deleted{${TM_SELECTED_TEXT:$1}}{${2:引数2}}".
Proof.
  pose proof (build_snippet_two_args (u "deleted")) as (Hb & _ & _ & _ & Hl).
  rewrite Hb, Hl; [vm_compute; reflexivity | | |]; vm_compute; discriminate.
Defined.

(** ** The loops of the synthesizer *)

Lemma keybindings_step_app cmds bindings item :
  keybindings_step cmds bindings item = bindings ++ bindings_of cmds item.
Proof.
  destruct item as [cmd base_key]. unfold keybindings_step, bindings_of.
  cbn [fst snd]. destruct (cmds !! cmd) as [n_args|]; [|rewrite app_nil_r; reflexivity].
  destruct (chords cmd base_key) as [primary fallback].
  rewrite <- app_assoc. reflexivity.
Qed.

Lemma fold_keybindings cmds km bindings :
  fold_left (keybindings_step cmds) km bindings
  = bindings ++ flat_map (bindings_of cmds) km.
Proof.
  revert bindings. induction km as [|item km IH]; intros bindings; simpl.
  - rewrite app_nil_r. reflexivity.
  - rewrite IH, keybindings_step_app, <- app_assoc. reflexivity.
Qed.

Lemma generate_keybindings_flat_map cmds :
  generate_keybindings cmds = flat_map (bindings_of cmds) KEY_MAP.
Proof. unfold generate_keybindings. rewrite fold_keybindings. reflexivity. Qed.

Lemma dict_set_fresh {V : Type} (d : list (list N * V)) k v :
  k ∉ map fst d -> dict_set d k v = d ++ [(k, v)].
Proof.
  induction d as [|[k' v'] d IH]; intros Hk; [reflexivity|].
  simpl in *. apply not_elem_of_cons in Hk. destruct Hk as [Hne Hk].
  destruct (decide (k' = k)) as [->|_]; [contradiction|].
  rewrite (IH Hk). reflexivity.
Qed.

Lemma snippets_step_fresh cmds snippets item :
  u "muse: " ++ fst item ∉ map fst snippets ->
  snippets_step cmds snippets item = snippets ++ snippets_of cmds item.
Proof.
  intros Hfresh. unfold snippets_step, snippets_of.
  destruct (cmds !! fst item) as [n_args|]; [|rewrite app_nil_r; reflexivity].
  apply dict_set_fresh, Hfresh.
Qed.

Lemma snippets_of_keys cmds item :
  map fst (snippets_of cmds item) = [] \/
  map fst (snippets_of cmds item) = [u "muse: " ++ fst item].
Proof.
  unfold snippets_of. destruct (cmds !! fst item); [right | left]; reflexivity.
Qed.

Lemma fold_snippets cmds km snippets :
  NoDup (map fst km) ->
  (forall cmd, cmd ∈ map fst km -> u "muse: " ++ cmd ∉ map fst snippets) ->
  fold_left (snippets_step cmds) km snippets
  = snippets ++ flat_map (snippets_of cmds) km.
Proof.
  revert snippets. induction km as [|item km IH]; intros snippets Hnd Hfresh; simpl.
  - rewrite app_nil_r. reflexivity.
  - simpl in Hnd. apply NoDup_cons in Hnd. destruct Hnd as [Hitem Hnd].
    rewrite snippets_step_fresh; [|apply Hfresh; left].
    rewrite IH, <- app_assoc; [reflexivity | exact Hnd |].
    intros cmd Hcmd. rewrite map_app. intros Hin.
    apply elem_of_app in Hin. destruct Hin as [Hin|Hin].
    + revert Hin. apply Hfresh. right. exact Hcmd.
    + destruct (snippets_of_keys cmds item) as [Hk|Hk]; rewrite Hk in Hin.
      * apply elem_of_nil in Hin. exact Hin.
      * apply list_elem_of_singleton in Hin. apply app_inv_head in Hin.
        subst cmd. contradiction.
Qed.

Lemma KEY_MAP_NoDup : NoDup (map fst KEY_MAP).
Proof.
  assert (H : bool_decide (NoDup (map fst KEY_MAP)) = true)
    by (vm_compute; reflexivity).
  apply bool_decide_eq_true in H. exact H.
Qed.

Lemma generate_snippets_flat_map cmds :
  generate_snippets cmds = flat_map (snippets_of cmds) KEY_MAP.
Proof.
  unfold generate_snippets. rewrite fold_snippets; [reflexivity | |].
  - apply KEY_MAP_NoDup.
  - intros cmd _. apply not_elem_of_nil.
Qed.

(** ** C10: bindings and snippet entries go together *)

Lemma paired_flat_map cmds km :
  (forall item, item ∈ km -> item ∈ KEY_MAP) ->
  paired (flat_map (bindings_of cmds) km) (flat_map (snippets_of cmds) km).
Proof.
  induction km as [|item km IH]; intros Hkm; [exact I|].
  assert (Hrest : paired (flat_map (bindings_of cmds) km)
                    (flat_map (snippets_of cmds) km)).
  { apply IH. intros item' Hin. apply Hkm. right. exact Hin. }
  cbn [flat_map]. unfold bindings_of at 1, snippets_of at 1.
  destruct (cmds !! fst item) as [n_args|]; [|exact Hrest].
  cbn [app paired make_binding key args snippet body].
  split; [|split; [reflexivity | split; [reflexivity | exact Hrest]]].
  exists (fst item), (snd item). split; [|split].
  - rewrite <- surjective_pairing. apply Hkm. left.
  - reflexivity.
  - symmetry. apply surjective_pairing.
Qed.

Lemma length_flat_map cmds km :
  length (flat_map (bindings_of cmds) km)
  = (2 * length (flat_map (snippets_of cmds) km))%nat.
Proof.
  induction km as [|item km IH]; [reflexivity|].
  cbn [flat_map]. rewrite !length_app, IH.
  unfold bindings_of, snippets_of.
  destruct (cmds !! fst item); simpl; lia.
Qed.

Lemma snippets_keys_from cmds km k :
  k ∈ map fst (flat_map (snippets_of cmds) km) ->
  exists cmd, cmd ∈ map fst km /\ k = u "muse: " ++ cmd.
Proof.
  induction km as [|item km IH]; cbn [flat_map map]; intros Hk.
  - apply elem_of_nil in Hk. contradiction.
  - rewrite map_app in Hk. apply elem_of_app in Hk. destruct Hk as [Hk|Hk].
    + destruct (snippets_of_keys cmds item) as [E|E]; rewrite E in Hk.
      * apply elem_of_nil in Hk. contradiction.
      * apply list_elem_of_singleton in Hk. exists (fst item).
        split; [left | exact Hk].
    + destruct (IH Hk) as (cmd & Hcmd & ->). exists cmd.
      split; [right; exact Hcmd | reflexivity].
Qed.

Lemma snippets_keys_NoDup cmds km :
  NoDup (map fst km) -> NoDup (map fst (flat_map (snippets_of cmds) km)).
Proof.
  induction km as [|item km IH]; cbn [flat_map map]; intros Hnd; [constructor|].
  apply NoDup_cons in Hnd. destruct Hnd as [Hitem Hnd].
  rewrite map_app.
  destruct (snippets_of_keys cmds item) as [E|E]; rewrite E; [exact (IH Hnd)|].
  cbn [app]. apply NoDup_cons. split; [|exact (IH Hnd)].
  intros Hk. apply snippets_keys_from in Hk. destruct Hk as (cmd & Hcmd & Heq).
  apply app_inv_head in Heq. subst cmd. contradiction.
Qed.

(** C10: there are twice as many bindings as the snippets object has keys;
    the bindings are consecutive pairs of a primary and a fallback chord,
    one pair for each snippet entry in order, and both bindings of a pair
    carry the body of that entry as their snippet. *)
Theorem bindings_pair_with_snippets (cmds : gmap (list N) Z) :
  length (generate_keybindings cmds)
  = (2 * length (generate_snippets cmds))%nat
  /\ NoDup (map fst (generate_snippets cmds))
  /\ paired (generate_keybindings cmds) (generate_snippets cmds).
Proof.
  rewrite generate_keybindings_flat_map, generate_snippets_flat_map.
  split; [apply length_flat_map|].
  split; [apply snippets_keys_NoDup, KEY_MAP_NoDup|].
  apply paired_flat_map. auto.
Qed.

(** ** C6: the alt modifier *)

Lemma chords_of_key_map cmd base_key :
  (cmd, base_key) ∈ KEY_MAP ->
  let primary := fst (chords cmd base_key) in
  let fallback := snd (chords cmd base_key) in
  if bool_decide (cmd ∈ USE_ALT_PRIMARY) then
    primary = u "ctrl+alt+" ++ base_key
    /\ fallback = u "ctrl+shift+alt+" ++ base_key
    /\ has_modifier (u "alt") primary = true
    /\ has_modifier (u "alt") fallback = true
  else
    primary = u "ctrl+" ++ base_key
    /\ fallback = u "ctrl+shift+" ++ base_key
    /\ has_modifier (u "alt") primary = false
    /\ has_modifier (u "alt") fallback = false.
Proof.
  unfold KEY_MAP. intros H.
  repeat (apply elem_of_cons in H; destruct H as [H|H];
          [injection H as -> ->; vm_compute; repeat apply conj; reflexivity|]).
  apply elem_of_nil in H. contradiction.
Qed.

(** C6: a macro of the key map that the style file defines gets two
    consecutive bindings.  If the macro is in the alternate-modifier set,
    the chords are ctrl+alt+key and ctrl+shift+alt+key and both have the
    alt modifier; if it is not, the chords are ctrl+key and ctrl+shift+key
    and neither has the alt modifier. *)
Theorem chords_alt_modifier (cmds : gmap (list N) Z) (cmd base_key : list N)
    (n_args : Z) :
  (cmd, base_key) ∈ KEY_MAP ->
  cmds !! cmd = Some n_args ->
  let primary := fst (chords cmd base_key) in
  let fallback := snd (chords cmd base_key) in
  (exists before after,
      generate_keybindings cmds
      = before
        ++ [ make_binding primary (build_snippet cmd n_args);
             make_binding fallback (build_snippet cmd n_args) ]
        ++ after)
  /\ if bool_decide (cmd ∈ USE_ALT_PRIMARY) then
       primary = u "ctrl+alt+" ++ base_key
       /\ fallback = u "ctrl+shift+alt+" ++ base_key
       /\ has_modifier (u "alt") primary = true
       /\ has_modifier (u "alt") fallback = true
     else
       primary = u "ctrl+" ++ base_key
       /\ fallback = u "ctrl+shift+" ++ base_key
       /\ has_modifier (u "alt") primary = false
       /\ has_modifier (u "alt") fallback = false.
Proof.
  intros Hin Hcmd primary fallback.
  split; [|exact (chords_of_key_map cmd base_key Hin)].
  apply list_elem_of_split in Hin. destruct Hin as (km1 & km2 & Hkm).
  exists (flat_map (bindings_of cmds) km1), (flat_map (bindings_of cmds) km2).
  rewrite generate_keybindings_flat_map, Hkm, flat_map_app.
  cbn [flat_map]. unfold bindings_of at 2. cbn [fst snd]. rewrite Hcmd.
  reflexivity.
Qed.

Lemma chords_alt_modifier_witness :
  let cmds : gmap (list N) Z :=
    <[u "highlightComment" := 2%Z]> (<[u "highlight" := 1%Z]> ∅) in
  (map key (generate_keybindings cmds)
   = [u "ctrl+h"; u "ctrl+shift+h"; u "ctrl+alt+h"; u "ctrl+shift+alt+h"])
  /\ has_modifier (u "alt") (fst (chords (u "highlightComment") (u "h"))) = true
  /\ has_modifier (u "alt") (fst (chords (u "highlight") (u "h"))) = false.
Proof.
  intros cmds.
  assert (H1 : (u "highlightComment", u "h") ∈ KEY_MAP).
  { unfold KEY_MAP. do 6 right. left. }
  assert (H2 : (u "highlight", u "h") ∈ KEY_MAP).
  { unfold KEY_MAP. do 3 right. left. }
  pose proof (chords_alt_modifier cmds _ _ 2%Z H1 eq_refl) as [_ Ha].
  pose proof (chords_alt_modifier cmds _ _ 1%Z H2 eq_refl) as [_ Hb].
  split; [vm_compute; reflexivity|].
  split.
  - change (bool_decide (u "highlightComment" ∈ USE_ALT_PRIMARY))
      with true in Ha. exact (proj1 (proj2 (proj2 Ha))).
  - change (bool_decide (u "highlight" ∈ USE_ALT_PRIMARY))
      with false in Hb. exact (proj1 (proj2 (proj2 Hb))).
Defined.

(** ** The runs of [main] *)

Section Runs.
Variable path_resolve : list N -> exn + list N.
Variable stat_error : list N -> option exn.
Variable resolve : list N -> list N.
Variable json_dumps : json -> list N.
Variable stdout_error : list N -> option exn.

Local Notation "'run'" :=
  (main path_resolve stat_error resolve json_dumps stdout_error) (at level 0).

Lemma print_files line w w' :
  print stdout_error line w = inr w' -> files w' = files w.
Proof.
  unfold print. destruct (stdout_error line); [discriminate|].
  intros [= <-]. reflexivity.
Qed.


Lemma print_included_files cmds w :
  files (snd (print_included stdout_error cmds w)) = files w.
Proof.
  unfold print_included. generalize KEY_MAP. intros km. revert w.
  induction km as [|item km IH]; intros w; [reflexivity|].
  cbn [print_included_from]. destruct (cmds !! fst item) as [n_args|]; [|apply IH].
  destruct (print stdout_error _ w) as [e|w'] eqn:Hp; [reflexivity|].
  rewrite IH. exact (print_files _ _ _ Hp).
Qed.


(** The summary changes no file, and ends with the status 0 or with the
    exception of a [print]. *)
Lemma print_summary_files cmds w :
  files (snd (print_summary stdout_error cmds w)) = files w.
Proof.
  unfold print_summary.
  destruct (print stdout_error _ w) as [e|w3] eqn:H3; [reflexivity|].
  apply print_files in H3.
  destruct (print stdout_error _ w3) as [e|w4] eqn:H4; [exact H3|].
  apply print_files in H4.
  destruct (print stdout_error _ w4) as [e|w5] eqn:H5; [cbn [snd]; congruence|].
  apply print_files in H5.
  destruct (print stdout_error _ w5) as [e|w6] eqn:H6; [cbn [snd]; congruence|].
  apply print_files in H6.
  pose proof (print_included_files cmds w6) as H7.
  destruct (print_included stdout_error cmds w6) as [[e|] w7];
    cbn [snd] in H7 |- *; [congruence|].
  destruct (print stdout_error _ w7) as [e|w8] eqn:H8; [cbn [snd]; congruence|].
  apply print_files in H8.
  destruct (print stdout_error _ w8) as [e|w9] eqn:H9; [cbn [snd]; congruence|].
  apply print_files in H9. cbn [snd]. congruence.
Qed.



Lemma write_text_files path content w w' :
  write_text resolve path content w = inr w' ->
  files w' = <[resolve path := File content]> (files w) /\ stdout w' = stdout w.
Proof.
  unfold write_text.
  destruct (files w !! resolve (dirname path)) as [[c|]|]; try discriminate.
  destruct (files w !! resolve path) as [[c|]|]; try discriminate;
    intros [= <-]; split; reflexivity.
Qed.


Lemma main_short argv w :
  (length argv < 2)%nat ->
  run argv w
  = match stdout_error USAGE with
    | Some e => (Raised e, w)
    | None => (Exit 2, write_line USAGE w)
    end.
Proof.
  intros Hlt. apply Nat.ltb_lt in Hlt. unfold main, print, USAGE.
  rewrite Hlt.
  destruct (stdout_error _); reflexivity.
Qed.

Lemma main_resolve_error argv w e :
  (2 <= length argv)%nat ->
  path_resolve (nth 1 argv []) = inl e ->
  run argv w = (Raised e, w).
Proof.
  intros Hge Hp. apply Nat.ltb_ge in Hge. unfold main.
  rewrite Hge, Hp. reflexivity.
Qed.

Lemma main_stat_error argv w sty_path e :
  (2 <= length argv)%nat ->
  path_resolve (nth 1 argv []) = inr sty_path ->
  stat_error sty_path = Some e ->
  run argv w = (Raised e, w).
Proof.
  intros Hge Hp Hs. apply Nat.ltb_ge in Hge. unfold main.
  rewrite Hge, Hp, Hs. reflexivity.
Qed.

Lemma main_missing argv w sty_path :
  (2 <= length argv)%nat ->
  path_resolve (nth 1 argv []) = inr sty_path ->
  stat_error sty_path = None ->
  files w !! resolve sty_path = None ->
  run argv w
  = match stdout_error (u "ERROR: file not found: " ++ sty_path) with
    | Some e => (Raised e, w)
    | None => (Exit 2, write_line (u "ERROR: file not found: " ++ sty_path) w)
    end.
Proof.
  intros Hge Hp Hs Hnone. apply Nat.ltb_ge in Hge. unfold main, print.
  rewrite Hge, Hp, Hs, Hnone.
  destruct (stdout_error _); reflexivity.
Qed.

Lemma main_directory argv w sty_path :
  (2 <= length argv)%nat ->
  path_resolve (nth 1 argv []) = inr sty_path ->
  stat_error sty_path = None ->
  files w !! resolve sty_path = Some Dir ->
  run argv w = (Raised IsADirectoryError, w).
Proof.
  intros Hge Hp Hs Hd. apply Nat.ltb_ge in Hge. unfold main.
  rewrite Hge, Hp, Hs, Hd. reflexivity.
Qed.

Lemma main_extract_error argv w sty_path sty_text e :
  (2 <= length argv)%nat ->
  path_resolve (nth 1 argv []) = inr sty_path ->
  stat_error sty_path = None ->
  files w !! resolve sty_path = Some (File sty_text) ->
  extract_commands sty_text = inl e ->
  run argv w = (Raised e, w).
Proof.
  intros Hge Hp Hs Hfile He. apply Nat.ltb_ge in Hge. unfold main.
  rewrite Hge, Hp, Hs, Hfile, He. reflexivity.
Qed.

(** What [main] does once the table of the style file is there. *)
Lemma main_run argv w sty_path sty_text cmds :
  (2 <= length argv)%nat ->
  path_resolve (nth 1 argv []) = inr sty_path ->
  stat_error sty_path = None ->
  files w !! resolve sty_path = Some (File sty_text) ->
  extract_commands sty_text = inr cmds ->
  match write_text resolve KEYBINDINGS_PATH
          (keybindings_document json_dumps cmds) w with
  | inl e => run argv w = (Raised e, w)
  | inr w1 =>
      match write_text resolve SNIPPETS_PATH
              (snippets_document json_dumps cmds) w1 with
      | inl e => run argv w = (Raised e, w1)
      | inr w2 => run argv w = print_summary stdout_error cmds w2
      end
  end.
Proof.
  intros Hge Hp Hs Hfile He. apply Nat.ltb_ge in Hge.
  unfold main, KEYBINDINGS_PATH, SNIPPETS_PATH, keybindings_document,
    snippets_document.
  rewrite Hge, Hp, Hs, Hfile, He.
  destruct (write_text resolve (u ".vscode/keybindings.json") _ w) as [e|w1];
    [reflexivity|].
  destruct (write_text resolve (u ".vscode/latex.json") _ w1) as [e|w2];
    reflexivity.
Qed.

(** The ways in which a run ends. *)
Lemma main_cases argv w :
  run argv w = (Exit 2, write_line USAGE w)
  \/ (exists sty_path,
        run argv w
        = (Exit 2, write_line (u "ERROR: file not found: " ++ sty_path) w))
  \/ (exists e, run argv w = (Raised e, w))
  \/ (exists sty_path sty_text cmds,
        (2 <= length argv)%nat
        /\ path_resolve (nth 1 argv []) = inr sty_path
        /\ stat_error sty_path = None
        /\ files w !! resolve sty_path = Some (File sty_text)
        /\ extract_commands sty_text = inr cmds).
Proof.
  destruct (Nat.lt_ge_cases (length argv) 2) as [Hlt|Hge].
  { rewrite (main_short argv w Hlt).
    destruct (stdout_error USAGE) as [e|];
      [right; right; left; exists e; reflexivity | left; reflexivity]. }
  destruct (path_resolve (nth 1 argv [])) as [e|sty_path] eqn:Hp.
  { right. right. left. exists e. apply main_resolve_error; assumption. }
  destruct (stat_error sty_path) as [e|] eqn:Hs.
  { right. right. left. exists e. eapply main_stat_error; eassumption. }
  destruct (files w !! resolve sty_path) as [[sty_text|]|] eqn:Hfile.
  - destruct (extract_commands sty_text) as [e|cmds] eqn:He.
    + right. right. left. exists e. eapply main_extract_error; eassumption.
    + right. right. right. exists sty_path, sty_text, cmds. auto.
  - right. right. left. exists IsADirectoryError.
    eapply main_directory; eassumption.
  - rewrite (main_missing argv w sty_path Hge Hp Hs Hfile).
    destruct (stdout_error _) as [e|];
      [right; right; left; exists e; reflexivity
      | right; left; exists sty_path; reflexivity].
Qed.

(** The files after a run that exits with status 0. *)
Lemma main_success_files argv w sty_path sty_text :
  (2 <= length argv)%nat ->
  path_resolve (nth 1 argv []) = inr sty_path ->
  files w !! resolve sty_path = Some (File sty_text) ->
  fst (run argv w) = Exit 0 ->
  exists cmds,
    extract_commands sty_text = inr cmds
    /\ files (snd (run argv w))
       = <[resolve SNIPPETS_PATH := File (snippets_document json_dumps cmds)]>
           (<[resolve KEYBINDINGS_PATH
               := File (keybindings_document json_dumps cmds)]> (files w)).
Proof.
  intros Hge Hp Hfile Hexit.
  destruct (stat_error sty_path) as [e|] eqn:Hs.
  { rewrite (main_stat_error argv w sty_path e Hge Hp Hs) in Hexit.
    discriminate Hexit. }
  destruct (extract_commands sty_text) as [e|cmds] eqn:He.
  { rewrite (main_extract_error argv w sty_path sty_text e Hge Hp Hs Hfile He)
      in Hexit. discriminate Hexit. }
  exists cmds. split; [reflexivity|].
  pose proof (main_run argv w sty_path sty_text cmds Hge Hp Hs Hfile He) as Hrun.
  destruct (write_text resolve KEYBINDINGS_PATH
              (keybindings_document json_dumps cmds) w) as [e|w1] eqn:H1.
  { rewrite Hrun in Hexit. discriminate Hexit. }
  destruct (write_text resolve SNIPPETS_PATH
              (snippets_document json_dumps cmds) w1) as [e|w2] eqn:H2.
  { rewrite Hrun in Hexit. discriminate Hexit. }
  rewrite Hrun, print_summary_files.
  apply write_text_files in H1, H2. destruct H1 as [H1 _], H2 as [H2 _].
  rewrite H2, H1. reflexivity.
Qed.



End Runs.



(** ** C8: the exit status *)




(** ** C9: determinism *)

(** C9: two runs that read the same style file content and exit with
    status 0 leave the same content in both output files, whatever else
    differs between the runs (further arguments, the path of the style
    file, other files, what the output files held before); the content is
    the serialisation of what the synthesizer makes of the table of the
    style file. *)
Theorem main_deterministic (path_resolve : list N -> exn + list N)
    (stat_error : list N -> option exn) (resolve : list N -> list N)
    (json_dumps : json -> list N) (stdout_error : list N -> option exn)
    (argv1 argv2 : list (list N)) (w1 w2 : world)
    (sty_path1 sty_path2 sty_text : list N) :
  (2 <= length argv1)%nat ->
  (2 <= length argv2)%nat ->
  path_resolve (nth 1 argv1 []) = inr sty_path1 ->
  path_resolve (nth 1 argv2 []) = inr sty_path2 ->
  files w1 !! resolve sty_path1 = Some (File sty_text) ->
  files w2 !! resolve sty_path2 = Some (File sty_text) ->
  fst (main path_resolve stat_error resolve json_dumps stdout_error argv1 w1)
  = Exit 0 ->
  fst (main path_resolve stat_error resolve json_dumps stdout_error argv2 w2)
  = Exit 0 ->
  let out1 :=
    files (snd (main path_resolve stat_error resolve json_dumps stdout_error
                  argv1 w1)) in
  let out2 :=
    files (snd (main path_resolve stat_error resolve json_dumps stdout_error
                  argv2 w2)) in
  out1 !! resolve KEYBINDINGS_PATH = out2 !! resolve KEYBINDINGS_PATH
  /\ out1 !! resolve SNIPPETS_PATH = out2 !! resolve SNIPPETS_PATH
  /\ exists cmds,
       extract_commands sty_text = inr cmds
       /\ out1 !! resolve SNIPPETS_PATH
          = Some (File (snippets_document json_dumps cmds))
       /\ (resolve KEYBINDINGS_PATH <> resolve SNIPPETS_PATH ->
           out1 !! resolve KEYBINDINGS_PATH
           = Some (File (keybindings_document json_dumps cmds))).
Proof.
  intros Hlen1 Hlen2 Hp1 Hp2 Hfile1 Hfile2 Hexit1 Hexit2 out1 out2.
  unfold out1, out2.
  destruct (main_success_files path_resolve stat_error resolve json_dumps
              stdout_error argv1 w1 sty_path1 sty_text Hlen1 Hp1 Hfile1 Hexit1)
    as (cmds & He & ->).
  destruct (main_success_files path_resolve stat_error resolve json_dumps
              stdout_error argv2 w2 sty_path2 sty_text Hlen2 Hp2 Hfile2 Hexit2)
    as (cmds' & He' & ->).
  assert (cmds' = cmds) as -> by congruence.
  assert (Hdoc : forall kp sp kd sd (f1 f2 : gmap (list N) node),
            (<[sp := sd]> (<[kp := kd]> f1)) !! kp
            = (<[sp := sd]> (<[kp := kd]> f2)) !! kp
            /\ (<[sp := sd]> (<[kp := kd]> f1)) !! sp
               = (<[sp := sd]> (<[kp := kd]> f2)) !! sp
            /\ (<[sp := sd]> (<[kp := kd]> f1)) !! sp = Some sd
            /\ (kp <> sp -> (<[sp := sd]> (<[kp := kd]> f1)) !! kp = Some kd)).
  { intros kp sp kd sd f1 f2. split; [|split; [|split]].
    - destruct (decide (sp = kp)) as [Heq|Hne].
      + rewrite <- Heq, !lookup_insert_eq. reflexivity.
      + rewrite !(lookup_insert_ne _ _ _ _ Hne), !lookup_insert_eq.
        reflexivity.
    - rewrite !lookup_insert_eq. reflexivity.
    - apply lookup_insert_eq.
    - intros Hne. rewrite lookup_insert_ne; [|congruence].
      apply lookup_insert_eq. }
  destruct (Hdoc (resolve KEYBINDINGS_PATH) (resolve SNIPPETS_PATH)
              (File (keybindings_document json_dumps cmds))
              (File (snippets_document json_dumps cmds))
              (files w1) (files w2)) as (Hk & Hsn & Hs1 & Hk1).
  split; [exact Hk|]. split; [exact Hsn|].
  exists cmds. split; [exact He|]. split; [exact Hs1 | exact Hk1].
Qed.

Lemma main_deterministic_witness :
  let sty := u "\newcommand{\added}[1]{}" in
  let w1 := {| files := <[u "a.sty" := File sty]> (<[u ".vscode" := Dir]> ∅);
               stdout := [] |} in
  let w2 := {| files := <[u ".vscode/latex.json" := File (u "{}")]>
                          (<[u "b.sty" := File sty]> (<[u ".vscode" := Dir]> ∅));
               stdout := u "earlier output" |} in
  let path_resolve := fun p : list N => @inr exn (list N) p in
  let stat_error := fun _ : list N => @None exn in
  let json_dumps := fun _ : json => u "[]" in
  let stdout_error := fun _ : list N => @None exn in
  files (snd (main path_resolve stat_error (fun p => p) json_dumps stdout_error
                [u "prog"; u "a.sty"] w1))
    !! SNIPPETS_PATH
  = files (snd (main path_resolve stat_error (fun p => p) json_dumps stdout_error
                  [u "prog"; u "b.sty"; u "x"] w2))
      !! SNIPPETS_PATH.
Proof.
  intros sty w1 w2 path_resolve stat_error json_dumps stdout_error.
  refine (proj1 (proj2 (main_deterministic path_resolve stat_error
                          (fun p => p) json_dumps stdout_error
                          [u "prog"; u "a.sty"] [u "prog"; u "b.sty"; u "x"]
                          w1 w2 (u "a.sty") (u "b.sty") sty _ _ _ _ _ _ _ _)));
    try (simpl; lia); vm_compute; reflexivity.
Defined.

(** * Further properties of the code *)

(** ** The comment stripper *)

Lemma skip_dots_length l : (length (skip_dots l) <= length l)%nat.
Proof.
  induction l as [|c l IH]; simpl; [lia|].
  destruct (c =? LF); simpl; lia.
Qed.

Lemma sub_comment_from_length b l :
  (length (sub_comment_from b l) <= length l)%nat.
Proof.
  revert b. induction l as [|c l IH]; intros b; simpl; [lia|].
  destruct ((c =? PERCENT) && negb b && at_dollar (skip_dots l)).
  - pose proof (skip_dots_length l). lia.
  - simpl. specialize (IH (c =? BACKSLASH)). lia.
Qed.

Lemma join_cons_cons c l ls : join [LF] ((c :: l) :: ls) = c :: join [LF] (l :: ls).
Proof. destruct ls; reflexivity. Qed.

Lemma length_join_cons l ls :
  (length (join [LF] (l :: ls)) <= length l + S (length (join [LF] ls)))%nat.
Proof.
  destruct ls as [|l2 ls]; [simpl; lia|].
  rewrite join_cons2, length_app. simpl. lia.
Qed.

Lemma length_join_splitlines s :
  (length (join [LF] (splitlines s)) <= length s)%nat.
Proof.
  induction s as [|c|c c' rest IHrest IHc'] using list_ind2.
  - simpl. lia.
  - simpl. destruct (is_linebreak c); simpl; lia.
  - change (splitlines (c :: c' :: rest)) with
      (if is_linebreak c then
         [] :: (if (c =? CR) && (c' =? LF) then splitlines rest
                else splitlines (c' :: rest))
       else match splitlines (c' :: rest) with
            | [] => [[c]]
            | l :: ls => (c :: l) :: ls
            end).
    destruct (is_linebreak c).
    + destruct ((c =? CR) && (c' =? LF)).
      * pose proof (length_join_cons [] (splitlines rest)). simpl in *. lia.
      * pose proof (length_join_cons [] (splitlines (c' :: rest))). simpl in *. lia.
    + destruct (splitlines (c' :: rest)) as [|l ls]; [simpl; lia|].
      rewrite join_cons_cons. simpl in *. lia.
Qed.

Lemma length_join_map (f : list N -> list N) ls :
  (forall l, (length (f l) <= length l)%nat) ->
  (length (join [LF] (map f ls)) <= length (join [LF] ls))%nat.
Proof.
  intros Hf. induction ls as [|l ls IH]; [simpl; lia|].
  destruct ls as [|l2 ls].
  - simpl. apply Hf.
  - cbn [map] in *. rewrite !join_cons2, !length_app. cbn [length].
    specialize (Hf l). lia.
Qed.

(** Stripping never makes a text longer. *)
Theorem strip_comments_length (s : list N) :
  (length (strip_comments s) <= length s)%nat.
Proof.
  unfold strip_comments.
  pose proof (length_join_map sub_comment (splitlines s)
                (sub_comment_from_length false)).
  pose proof (length_join_splitlines s). lia.
Qed.

Lemma has_marker_truncate prev l :
  has_marker (bool_decide (prev = Some BACKSLASH)) (truncate_at_marker prev l)
  = false.
Proof.
  revert prev. induction l as [|c l IH]; intros prev; simpl; [reflexivity|].
  destruct ((c =? PERCENT) && negb (bool_decide (prev = Some BACKSLASH))) eqn:E;
    [reflexivity|].
  simpl. rewrite E. rewrite eqb_backslash. apply IH.
Qed.

Lemma join_chars (P : N -> Prop) ls :
  P LF -> Forall (Forall P) ls -> Forall P (join [LF] ls).
Proof.
  intros HLF. induction 1 as [|l ls Hl Hls IH]; [constructor|].
  destruct ls as [|l2 ls]; [exact Hl|].
  rewrite join_cons2. apply Forall_app. split; [exact Hl|].
  constructor; [exact HLF | exact IH].
Qed.

(** The stripped text has no other line terminator than the line feed, and
    none of its lines holds a marker that no backslash precedes. *)
Theorem strip_comments_clean (s : list N) :
  Forall (fun c => is_linebreak c = true -> c = LF) (strip_comments s)
  /\ Forall (fun l => has_marker false l = false) (splitlines (strip_comments s)).
Proof.
  split.
  - unfold strip_comments. apply join_chars; [reflexivity|].
    eapply Forall_impl; [apply stripped_lines_break_free|].
    intros l Hl. eapply Forall_impl; [exact Hl|].
    intros c Hc Hb. rewrite Hc in Hb. discriminate Hb.
  - rewrite splitlines_strip_comments. apply Forall_drop_trailing_empty.
    apply Forall_map. eapply Forall_impl; [apply splitlines_break_free|].
    intros l Hl. cbn beta. rewrite (sub_comment_truncate l Hl).
    exact (has_marker_truncate None l).
Qed.

Lemma splitlines_chars (P : N -> Prop) s :
  Forall P s -> Forall (Forall P) (splitlines s).
Proof.
  induction s as [|c|c c' rest IHrest IHc'] using list_ind2; intros Hs.
  - constructor.
  - simpl. destruct (is_linebreak c); repeat constructor.
    inversion Hs; assumption.
  - change (splitlines (c :: c' :: rest)) with
      (if is_linebreak c then
         [] :: (if (c =? CR) && (c' =? LF) then splitlines rest
                else splitlines (c' :: rest))
       else match splitlines (c' :: rest) with
            | [] => [[c]]
            | l :: ls => (c :: l) :: ls
            end).
    inversion Hs as [|? ? Hc Hs']; subst.
    inversion Hs' as [|? ? Hc' Hrest]; subst.
    destruct (is_linebreak c).
    + constructor; [constructor|].
      destruct ((c =? CR) && (c' =? LF)); auto.
    + specialize (IHc' Hs'). destruct (splitlines (c' :: rest)) as [|l ls].
      * repeat constructor. exact Hc.
      * inversion IHc'; subst. constructor; [constructor|]; assumption.
Qed.

Lemma splitlines_nonempty c s : splitlines (c :: s) <> [].
Proof.
  simpl. destruct (is_linebreak c); [discriminate|].
  destruct (splitlines s); discriminate.
Qed.

(** Joining the lines gives the text back when its terminators are line
    feeds and none ends it. *)
Lemma join_splitlines s :
  Forall (fun c => is_linebreak c = true -> c = LF) s ->
  last s <> Some LF ->
  join [LF] (splitlines s) = s.
Proof.
  induction s as [|c s IH]; intros Hs Hlast; [reflexivity|].
  inversion Hs as [|? ? Hc Hs']; subst.
  destruct s as [|c' s].
  - cbn [splitlines]. destruct (is_linebreak c) eqn:Hb; [|reflexivity].
    exfalso. apply Hlast. rewrite (Hc eq_refl). reflexivity.
  - assert (Hlast' : last (c' :: s) <> Some LF) by exact Hlast.
    specialize (IH Hs' Hlast').
    change (splitlines (c :: c' :: s)) with
      (if is_linebreak c then
         [] :: (if (c =? CR) && (c' =? LF) then splitlines s
                else splitlines (c' :: s))
       else match splitlines (c' :: s) with
            | [] => [[c]]
            | l :: ls => (c :: l) :: ls
            end).
    destruct (is_linebreak c) eqn:Hb.
    + rewrite (Hc eq_refl). change ((LF =? CR) && (c' =? LF)) with false.
      cbv iota.
      destruct (splitlines (c' :: s)) as [|l ls] eqn:Hl;
        [exfalso; exact (splitlines_nonempty c' s Hl)|].
      rewrite join_cons2. cbn [app]. rewrite IH. reflexivity.
    + destruct (splitlines (c' :: s)) as [|l ls] eqn:Hl;
        [exfalso; exact (splitlines_nonempty c' s Hl)|].
      rewrite join_cons_cons, IH. reflexivity.
Qed.

Lemma truncate_no_percent prev l :
  Forall (fun c => c <> PERCENT) l -> truncate_at_marker prev l = l.
Proof.
  intros Hl. revert prev. induction Hl as [|c l Hc _ IH]; intros prev;
    [reflexivity|].
  simpl. destruct (N.eqb_spec c PERCENT) as [|_]; [contradiction|].
  simpl. rewrite IH. reflexivity.
Qed.

(** A text without a marker, whose terminators are line feeds and which
    does not end with one, is left as it is. *)
Theorem strip_comments_unchanged (s : list N) :
  Forall (fun c => c <> PERCENT) s ->
  Forall (fun c => is_linebreak c = true -> c = LF) s ->
  last s <> Some LF ->
  strip_comments s = s.
Proof.
  intros Hp Hb Hlast. unfold strip_comments.
  rewrite map_fixed; [apply join_splitlines; assumption|].
  pose proof (splitlines_chars _ s Hp) as Hlines.
  pose proof (splitlines_break_free s) as Hfree.
  apply Forall_forall. intros l Hl.
  rewrite Forall_forall in Hlines, Hfree.
  rewrite (sub_comment_truncate l (Hfree l Hl)).
  apply truncate_no_percent, Hlines, Hl.
Qed.

Lemma Forall_of_forallb (p : N -> bool) (P : N -> Prop) l :
  (forall c, p c = true -> P c) -> forallb p l = true -> Forall P l.
Proof.
  intros HpP H. apply Forall_forall. intros c Hc.
  rewrite forallb_forall in H. apply HpP, H, list_elem_of_In, Hc.
Qed.

Lemma no_percent_of_forallb l :
  forallb (fun c => negb (c =? PERCENT)) l = true ->
  Forall (fun c => c <> PERCENT) l.
Proof.
  apply Forall_of_forallb. intros c H. apply N.eqb_neq, negb_true_iff, H.
Qed.

Lemma break_free_of_forallb l :
  forallb (fun c => negb (is_linebreak c)) l = true -> break_free l.
Proof.
  apply Forall_of_forallb. intros c H. apply negb_true_iff, H.
Qed.

Lemma strip_comments_unchanged_witness :
  let s := u "\newcommand{\added}[1]{\textbf{#1}}" ++ [LF] ++ [LF]
           ++ u "\newcommand{\deleted}[1]{\sout{#1}}" in
  strip_comments s = s.
Proof.
  intros s. apply (strip_comments_unchanged s).
  - apply no_percent_of_forallb. vm_compute. reflexivity.
  - apply (Forall_of_forallb (fun c => negb (is_linebreak c) || (c =? LF))).
    + intros c H Hb. rewrite Hb in H. apply N.eqb_eq in H. exact H.
    + vm_compute. reflexivity.
  - vm_compute. discriminate.
Defined.

(** ** Comments and escaped markers on one line *)

Lemma strip_comments_line l :
  break_free l -> strip_comments l = truncate_at_marker None l.
Proof.
  intros Hl. unfold strip_comments. rewrite (splitlines_line l Hl).
  destruct l as [|c l]; [reflexivity|].
  cbn [map join]. apply sub_comment_truncate, Hl.
Qed.

Lemma truncate_prev prev prev' l :
  bool_decide (prev = Some BACKSLASH) = bool_decide (prev' = Some BACKSLASH) ->
  truncate_at_marker prev l = truncate_at_marker prev' l.
Proof.
  intros H. destruct l as [|c l]; [reflexivity|].
  simpl. rewrite H. reflexivity.
Qed.

Lemma truncate_app prev code tail :
  Forall (fun c => c <> PERCENT) code ->
  truncate_at_marker prev (code ++ tail)
  = code ++ truncate_at_marker (match last code with
                                | Some c => Some c
                                | None => prev
                                end) tail.
Proof.
  intros Hcode. revert prev.
  induction Hcode as [|c code Hc _ IH]; intros prev; [reflexivity|].
  cbn [app truncate_at_marker].
  destruct (N.eqb_spec c PERCENT) as [|_]; [contradiction|].
  cbn [andb]. rewrite IH. destruct code as [|c' code]; [reflexivity|].
  change (last (c :: c' :: code)) with (last (c' :: code)).
  destruct (last (c' :: code)) as [x|] eqn:E; [reflexivity|].
  apply last_None in E. discriminate E.
Qed.

Lemma strip_comments_cut code rest :
  break_free code -> break_free rest ->
  Forall (fun c => c <> PERCENT) code ->
  last code <> Some BACKSLASH ->
  strip_comments (code ++ PERCENT :: rest) = code.
Proof.
  intros Hcode Hrest Hp Hlast.
  assert (Hpct : is_linebreak PERCENT = false) by reflexivity.
  rewrite strip_comments_line.
  - rewrite (truncate_app None code _ Hp). cbn [truncate_at_marker].
    rewrite N.eqb_refl. cbn [andb].
    replace (bool_decide (match last code with
                          | Some c => Some c
                          | None => None
                          end = Some BACKSLASH)) with false.
    + cbn [negb]. apply app_nil_r.
    + symmetry. apply bool_decide_eq_false.
      destruct (last code) as [c|]; [|discriminate].
      intros [= ->]. apply Hlast. reflexivity.
  - apply Forall_app. split; [exact Hcode|]. constructor; assumption.
Qed.

Lemma strip_comments_escaped code rest :
  break_free code -> break_free rest ->
  Forall (fun c => c <> PERCENT) code ->
  strip_comments (code ++ BACKSLASH :: PERCENT :: rest)
  = code ++ BACKSLASH :: PERCENT :: strip_comments rest.
Proof.
  intros Hcode Hrest Hp.
  assert (Hpct : is_linebreak PERCENT = false) by reflexivity.
  assert (Hbs : is_linebreak BACKSLASH = false) by reflexivity.
  rewrite strip_comments_line.
  - rewrite (truncate_app None code _ Hp). cbn [truncate_at_marker].
    change (BACKSLASH =? PERCENT) with false. cbn [andb].
    rewrite N.eqb_refl.
    replace (bool_decide (Some BACKSLASH = Some BACKSLASH)) with true
      by (symmetry; apply bool_decide_eq_true; reflexivity).
    cbn [negb andb]. rewrite (strip_comments_line rest Hrest).
    do 3 f_equal. apply truncate_prev.
    rewrite !bool_decide_eq_false_2; [reflexivity | discriminate | discriminate].
  - apply Forall_app. split; [exact Hcode|]. repeat constructor; assumption.
Qed.

(** On a line, a marker that no backslash precedes starts a comment: the
    marker and what follows it are dropped.  A marker right after a
    backslash is kept, with the backslash, and the rest of the line is
    stripped in turn. *)
Theorem strip_comments_marker (code rest : list N) :
  break_free code -> break_free rest ->
  Forall (fun c => c <> PERCENT) code ->
  (last code <> Some BACKSLASH ->
   strip_comments (code ++ PERCENT :: rest) = code)
  /\ strip_comments (code ++ BACKSLASH :: PERCENT :: rest)
     = code ++ BACKSLASH :: PERCENT :: strip_comments rest.
Proof.
  intros Hcode Hrest Hp. split.
  - apply strip_comments_cut; assumption.
  - apply strip_comments_escaped; assumption.
Qed.

Lemma strip_comments_marker_witness :
  strip_comments (u "\added{x} " ++ PERCENT :: u " \newcommand{\no}")
  = u "\added{x} "
  /\ strip_comments (u "50" ++ BACKSLASH :: PERCENT :: u " of it % rest")
     = u "50\% of it ".
Proof.
  pose proof break_free_of_forallb as Hb.
  pose proof no_percent_of_forallb as Hn.
  split.
  - apply (strip_comments_marker (u "\added{x} ") (u " \newcommand{\no}")).
    + apply Hb. vm_compute. reflexivity.
    + apply Hb. vm_compute. reflexivity.
    + apply Hn. vm_compute. reflexivity.
    + vm_compute. discriminate.
  - rewrite (proj2 (strip_comments_marker (u "50") (u " of it % rest")
                      (Hb (u "50") eq_refl) (Hb (u " of it % rest") eq_refl)
                      (Hn (u "50") eq_refl))).
    vm_compute. reflexivity.
Defined.

(** ** What the extractor records *)

Section Returns.
Variable P : Match -> Prop.

Lemma lit_returns c k : returns P k -> returns P (lit c k).
Proof.
  intros Hk s m H. unfold lit in H. destruct s as [|c' s]; [discriminate H|].
  destruct (c' =? c); [exact (Hk _ _ H) | discriminate H].
Qed.

Lemma lits_returns w k : returns P k -> returns P (lits w k).
Proof.
  intros Hk. induction w as [|c w IH]; [exact Hk|].
  cbn [lits]. apply lit_returns, IH.
Qed.

Lemma opt_returns (m : (list N -> option Match) -> list N -> option Match) k :
  returns P (m k) -> returns P k -> returns P (opt m k).
Proof.
  intros Hm Hk s r H. unfold opt in H.
  apply orelse_Some in H. destruct H as [H|H]; [exact (Hm s r H) | exact (Hk s r H)].
Qed.

Lemma star_returns p k : returns P k -> returns P (star p k).
Proof.
  intros Hk s. induction s as [|c s IH]; intros m H; simpl in H.
  - exact (Hk _ _ H).
  - destruct (p c); [|exact (Hk _ _ H)].
    apply orelse_Some in H. destruct H as [H|H]; [exact (IH _ H) | exact (Hk _ _ H)].
Qed.

Lemma star_cap_returns p (k : list N -> list N -> option Match) :
  (forall cap, Forall (fun c => p c = true) cap -> returns P (k cap)) ->
  returns P (star_cap p k).
Proof.
  intros Hk s. revert k Hk.
  induction s as [|c s IH]; intros k Hk m H; simpl in H.
  - exact (Hk [] (Forall_nil_2 _) _ _ H).
  - destruct (p c) eqn:Hc; [|exact (Hk [] (Forall_nil_2 _) _ _ H)].
    apply orelse_Some in H. destruct H as [H|H];
      [|exact (Hk [] (Forall_nil_2 _) _ _ H)].
    revert H. apply IH. intros cap Hcap. apply Hk. constructor; assumption.
Qed.

Lemma plus_cap_returns p (k : list N -> list N -> option Match) :
  (forall cap, cap <> [] -> Forall (fun c => p c = true) cap ->
               returns P (k cap)) ->
  returns P (plus_cap p k).
Proof.
  intros Hk s m H. unfold plus_cap in H.
  destruct s as [|c s]; [discriminate H|].
  destruct (p c) eqn:Hc; [|discriminate H].
  revert H. apply star_cap_returns. intros cap Hcap.
  apply Hk; [discriminate | constructor; assumption].
Qed.

End Returns.

Lemma bracket_group_well_formed name :
  name <> [] -> Forall (fun c => is_name_char c = true) name ->
  returns well_formed_match (bracket_group name).
Proof.
  intros Hne Hname s m H. unfold bracket_group in H.
  apply orelse_Some in H. destruct H as [H|H].
  - revert s m H. apply lit_returns, star_returns, plus_cap_returns.
    intros digits Hd1 Hd2. apply star_returns, lit_returns.
    intros s m [= <-]. repeat split; assumption.
  - injection H as <-. repeat split; assumption.
Qed.

Lemma pattern_match_well_formed s m :
  pattern_match s = Some m -> well_formed_match m.
Proof.
  revert s m. change (returns well_formed_match pattern_match).
  unfold pattern_match. apply lit_returns.
  assert (Hk : returns well_formed_match
                 (lits (u "newcommand")
                    (star is_space (lit LBRACE (star is_space (lit BACKSLASH
                      (plus_cap is_name_char (fun name =>
                         star is_space (lit RBRACE
                           (star is_space (bracket_group name))))))))))).
  { apply lits_returns, star_returns, lit_returns, star_returns, lit_returns,
      plus_cap_returns.
    intros name Hne Hname.
    apply star_returns, lit_returns, star_returns, bracket_group_well_formed;
      assumption. }
  apply opt_returns; [apply lits_returns|]; exact Hk.
Qed.

Lemma finditer_from_well_formed fuel s :
  Forall well_formed_match (finditer_from fuel s).
Proof.
  revert s. induction fuel as [|fuel IH]; intros s; [constructor|].
  destruct s as [|c s]; [constructor|].
  cbn [finditer_from].
  destruct (pattern_match (c :: s)) as [m|] eqn:Hm; [|apply IH].
  constructor; [exact (pattern_match_well_formed _ _ Hm) | apply IH].
Qed.

Lemma digit_of_nonneg d : (0 <= digit_of d)%Z.
Proof. unfold digit_of. destruct (decimal_value d); lia. Qed.

Lemma decimal_of_digits_nonneg ds : (0 <= decimal_of_digits ds)%Z.
Proof.
  unfold decimal_of_digits.
  assert (H : forall acc, (0 <= acc)%Z ->
            (0 <= fold_left (fun acc d => acc * 10 + digit_of d) ds acc)%Z).
  { induction ds as [|d ds IH]; intros acc Hacc; [exact Hacc|].
    simpl. apply IH. pose proof (digit_of_nonneg d). lia. }
  apply H. lia.
Qed.

Lemma fold_record_from (ms : list Match) (cmds : gmap (list N) Z)
    (name : list N) (n : Z) :
  fold_left record_entry ms cmds !! name = Some n ->
  cmds !! name = Some n
  \/ exists m, m ∈ ms /\ group1 m = name /\ match_count m = n.
Proof.
  revert cmds. induction ms as [|m ms IH]; intros cmds H; [left; exact H|].
  simpl in H. apply IH in H. destruct H as [H|(m' & Hin & Hname & Hn)].
  - unfold record_entry in H.
    destruct (decide (group1 m = name)) as [Heq|Hne].
    + rewrite Heq, lookup_insert_eq in H. injection H as <-.
      right. exists m. split; [left | split; [exact Heq | reflexivity]].
    + rewrite lookup_insert_ne in H by exact Hne. left. exact H.
  - right. exists m'. split; [right; exact Hin | split; assumption].
Qed.

(** Every entry of the table that the extractor returns comes from a
    match: its name is a non-empty string of the characters A-Z, a-z and @,
    and its argument count is not negative. *)
Theorem extract_commands_entries (text name : list N)
    (cmds : gmap (list N) Z) (n : Z) :
  extract_commands text = inr cmds ->
  cmds !! name = Some n ->
  name <> []
  /\ Forall (fun c => is_name_char c = true) name
  /\ (0 <= n)%Z
  /\ exists m, m ∈ finditer (strip_comments text)
               /\ group1 m = name /\ match_count m = n.
Proof.
  unfold extract_commands. intros He H.
  apply for_each_inv in He. destruct He as [_ ->].
  apply fold_record_from in H. destruct H as [H|(m & Hin & Hname & Hn)].
  { rewrite lookup_empty in H. discriminate H. }
  pose proof (finditer_from_well_formed
                (length (strip_comments text)) (strip_comments text)) as Hwf.
  rewrite Forall_forall in Hwf. destruct (Hwf m Hin) as (H1 & H2 & _).
  subst name n. split; [exact H1|]. split; [exact H2|].
  split; [|exists m; auto].
  unfold match_count. destruct (group2 m); [apply decimal_of_digits_nonneg | lia].
Qed.

Lemma extract_commands_entries_witness :
  let text := u "\newcommand{\my@cmd}[007]{} \newcommand{\x1}[2]{}" in
  u "my@cmd" <> [] /\ (0 <= 7)%Z.
Proof.
  intros text.
  assert (He : extract_commands text = inr {[ u "my@cmd" := 7%Z ]})
    by (vm_compute; reflexivity).
  destruct (extract_commands_entries text (u "my@cmd") _ 7%Z He
              (lookup_singleton_eq _ _)) as (H1 & _ & H3 & _).
  split; [exact H1 | exact H3].
Defined.

(** ** Texts without a definition command *)

Lemma has_prefix_iff w s : has_prefix w s = true <-> exists b, s = w ++ b.
Proof.
  revert s. induction w as [|c w IH]; intros s.
  - split; [intros _; exists s; reflexivity | reflexivity].
  - destruct s as [|c' s]; simpl.
    + split; [discriminate | intros [b Hb]; discriminate Hb].
    + rewrite andb_true_iff, N.eqb_eq, IH. split.
      * intros [-> [b ->]]. exists b. reflexivity.
      * intros [b [= -> ->]]. split; [reflexivity | exists b; reflexivity].
Qed.

Lemma contains_iff w s : contains w s = true <-> exists a b, s = a ++ w ++ b.
Proof.
  induction s as [|c s IH].
  - simpl. rewrite orb_false_r, has_prefix_iff. split.
    + intros [b Hb]. exists [], b. exact Hb.
    + intros (a & b & H). symmetry in H.
      apply app_eq_nil in H. destruct H as [-> H]. exists b. symmetry. exact H.
  - simpl. rewrite orb_true_iff, has_prefix_iff, IH. split.
    + intros [[b Hb]|(a & b & ->)].
      * exists [], b. exact Hb.
      * exists (c :: a), b. reflexivity.
    + intros (a & b & H). destruct a as [|c' a].
      * left. exists b. exact H.
      * right. injection H as -> ->. exists a, b. reflexivity.
Qed.

Lemma has_prefix_app_LF w l J :
  Forall (fun c => c <> LF) w ->
  has_prefix w (l ++ LF :: J) = has_prefix w l.
Proof.
  intros Hw. revert l. induction Hw as [|a w Ha _ IH]; intros l; [reflexivity|].
  destruct l as [|c l]; cbn [app has_prefix].
  - destruct (N.eqb_spec LF a) as [Heq|_]; [|reflexivity].
    exfalso. apply Ha. symmetry. exact Heq.
  - rewrite IH. reflexivity.
Qed.

Lemma contains_app_LF w l J :
  w <> [] -> Forall (fun c => c <> LF) w ->
  contains w (l ++ LF :: J) = contains w l || contains w J.
Proof.
  intros Hne Hw. induction l as [|c l IH].
  - pose proof (has_prefix_app_LF w [] J Hw) as Hp. cbn [app] in Hp.
    cbn [app contains]. rewrite Hp, orb_false_r. reflexivity.
  - change ((c :: l) ++ LF :: J) with (c :: (l ++ LF :: J)).
    cbn [contains].
    change (c :: l ++ LF :: J) with ((c :: l) ++ LF :: J).
    rewrite (has_prefix_app_LF w (c :: l) J Hw), IH, orb_assoc. reflexivity.
Qed.

Lemma contains_join w ls :
  w <> [] -> Forall (fun c => c <> LF) w ->
  contains w (join [LF] ls) = true ->
  exists l, l ∈ ls /\ contains w l = true.
Proof.
  intros Hne Hw. induction ls as [|l ls IH]; intros H.
  - destruct w; [contradiction | discriminate H].
  - destruct ls as [|l2 ls].
    + exists l. split; [left | exact H].
    + rewrite join_cons2, (contains_app_LF w l _ Hne Hw) in H.
      apply orb_true_iff in H. destruct H as [H|H].
      * exists l. split; [left | exact H].
      * destruct (IH H) as (l' & Hin & Hl'). exists l'. split; [right|]; assumption.
Qed.

(** The first line of a text starts the text. *)
Lemma splitlines_first s l ls :
  splitlines s = l :: ls -> exists b, s = l ++ b.
Proof.
  revert l ls. induction s as [|c s IH]; intros l ls H; [discriminate H|].
  cbn [splitlines] in H. destruct (is_linebreak c).
  - injection H as <- _. exists (c :: s). reflexivity.
  - destruct (splitlines s) as [|l0 ls0].
    + injection H as <- _. exists s. reflexivity.
    + injection H as <- _. destruct (IH l0 ls0 eq_refl) as [b ->].
      exists b. reflexivity.
Qed.

(** A line of a text is a part of the text. *)
Lemma splitlines_part s l :
  l ∈ splitlines s -> exists a b, s = a ++ l ++ b.
Proof.
  revert l. induction s as [|c|c c' rest IHrest IHc'] using list_ind2; intros l Hl.
  - apply elem_of_nil in Hl. contradiction.
  - simpl in Hl. destruct (is_linebreak c);
      apply list_elem_of_singleton in Hl; subst l.
    + exists [], [c]. reflexivity.
    + exists [], []. reflexivity.
  - change (splitlines (c :: c' :: rest)) with
      (if is_linebreak c then
         [] :: (if (c =? CR) && (c' =? LF) then splitlines rest
                else splitlines (c' :: rest))
       else match splitlines (c' :: rest) with
            | [] => [[c]]
            | l :: ls => (c :: l) :: ls
            end) in Hl.
    destruct (is_linebreak c).
    + apply elem_of_cons in Hl. destruct Hl as [->|Hl].
      * exists [], (c :: c' :: rest). reflexivity.
      * destruct ((c =? CR) && (c' =? LF)).
        -- destruct (IHrest l Hl) as (a & b & ->). exists (c :: c' :: a), b.
           reflexivity.
        -- destruct (IHc' l Hl) as (a & b & Hab). exists (c :: a), b.
           rewrite Hab. reflexivity.
    + destruct (splitlines (c' :: rest)) as [|l0 ls] eqn:Hsplit.
      * exfalso. exact (splitlines_nonempty c' rest Hsplit).
      * apply elem_of_cons in Hl. destruct Hl as [->|Hl].
        -- destruct (splitlines_first _ _ _ Hsplit) as [b Hb].
           exists [], b. rewrite Hb. reflexivity.
        -- destruct (IHc' l ltac:(right; exact Hl)) as (a & b & Hab).
           exists (c :: a), b. rewrite Hab. reflexivity.
Qed.

Lemma contains_part w l s a b :
  s = a ++ l ++ b -> contains w l = true -> contains w s = true.
Proof.
  intros -> H. apply contains_iff in H. destruct H as (a' & b' & ->).
  apply contains_iff. exists (a ++ a'), (b' ++ b).
  rewrite <- !app_assoc. reflexivity.
Qed.

(** Stripping brings no word into a text, if the word holds no line feed. *)
Lemma contains_strip_comments w s :
  w <> [] -> Forall (fun c => c <> LF) w ->
  contains w (strip_comments s) = true -> contains w s = true.
Proof.
  intros Hne Hw H. unfold strip_comments in H.
  apply contains_join in H; [|exact Hne | exact Hw].
  destruct H as (l' & Hin & Hl').
  apply list_elem_of_fmap in Hin. destruct Hin as (l & -> & Hin).
  pose proof (splitlines_break_free s) as Hfree.
  rewrite Forall_forall in Hfree. specialize (Hfree l Hin).
  rewrite (sub_comment_truncate l Hfree) in Hl'.
  destruct (truncate_prefix None l) as [tail Htail].
  destruct (splitlines_part s l Hin) as (a & b & Hs).
  apply (contains_part w l s a b Hs).
  apply (contains_part w (truncate_at_marker None l) l [] tail Htail Hl').
Qed.

Lemma no_definition_strip_comments s :
  no_definition s = true -> no_definition (strip_comments s) = true.
Proof.
  unfold no_definition. intros H. apply andb_true_iff in H. destruct H as [H1 H2].
  apply negb_true_iff in H1, H2. apply andb_true_iff. split; apply negb_true_iff.
  - destruct (contains (u "\newcommand") (strip_comments s)) eqn:E; [|reflexivity].
    apply contains_strip_comments in E.
    + congruence.
    + vm_compute. discriminate.
    + apply (Forall_of_forallb (fun c => negb (c =? LF))).
      * intros c Hc. apply N.eqb_neq, negb_true_iff, Hc.
      * vm_compute. reflexivity.
  - destruct (contains (u "\renewcommand") (strip_comments s)) eqn:E; [|reflexivity].
    apply contains_strip_comments in E.
    + congruence.
    + vm_compute. discriminate.
    + apply (Forall_of_forallb (fun c => negb (c =? LF))).
      * intros c Hc. apply N.eqb_neq, negb_true_iff, Hc.
      * vm_compute. reflexivity.
Qed.

(** A text in which neither definition command occurs yields an empty
    table, no binding and no snippet entry. *)
Theorem extract_commands_no_definition (text : list N) :
  no_definition text = true ->
  exists cmds,
    extract_commands text = inr cmds
    /\ cmds = ∅
    /\ generate_keybindings cmds = []
    /\ generate_snippets cmds = [].
Proof.
  intros H. exists ∅. split.
  - unfold extract_commands.
    rewrite (finditer_no_definition _ (no_definition_strip_comments text H)).
    reflexivity.
  - split; [reflexivity|]. split; vm_compute; reflexivity.
Qed.

Lemma extract_commands_no_definition_witness :
  extract_commands (u "\usepackage{xcolor}" ++ [CR; LF]
                    ++ u "\def\added#1{#1} % new") = inr ∅.
Proof.
  destruct (extract_commands_no_definition
              (u "\usepackage{xcolor}" ++ [CR; LF]
               ++ u "\def\added#1{#1} % new") eq_refl)
    as (cmds & He & -> & _).
  exact He.
Defined.

(** ** Commands that the pattern passes over *)

Lemma pattern_match_not_backslash c s :
  c <> BACKSLASH -> pattern_match (c :: s) = None.
Proof.
  intros Hc. unfold pattern_match, lit.
  destruct (N.eqb_spec c BACKSLASH) as [|_]; [contradiction | reflexivity].
Qed.

Lemma finditer_skip_word w s :
  Forall (fun c => c <> BACKSLASH) w -> finditer (w ++ s) = finditer s.
Proof.
  induction 1 as [|c w Hc _ IH]; [reflexivity|].
  change ((c :: w) ++ s) with (c :: (w ++ s)).
  rewrite finditer_skip; [exact IH | apply pattern_match_not_backslash, Hc].
Qed.

Lemma lits_newcommand_re {R : Type} (k : list N -> option R) rest :
  lits (u "newcommand") k (u "re" ++ rest) = None.
Proof. vm_compute. reflexivity. Qed.

Lemma pattern_match_unbraced (re : bool) (c : N) (rest : list N) :
  is_space c = false -> c <> LBRACE ->
  pattern_match (BACKSLASH :: (if re then u "re" else []) ++ u "newcommand"
                 ++ c :: rest) = None.
Proof.
  intros Hs Hb.
  assert (HK : forall k : list N -> option Match,
            star is_space (lit LBRACE k) (c :: rest) = None).
  { intros k. cbn [star]. rewrite Hs. unfold lit.
    destruct (N.eqb_spec c LBRACE) as [|_]; [contradiction | reflexivity]. }
  unfold pattern_match. rewrite lit_run. unfold opt.
  destruct re.
  - rewrite !lits_run, HK. cbn [orelse]. apply lits_newcommand_re.
  - cbn [app]. rewrite lits_re_newcommand, lits_run, HK. reflexivity.
Qed.

(** A definition command that is followed neither by white space nor by an
    opening brace (a starred command, a name without braces) is no match:
    the scan goes on behind the command. *)
Theorem finditer_unbraced (re : bool) (c : N) (rest : list N) :
  is_space c = false -> c <> LBRACE ->
  finditer (BACKSLASH :: (if re then u "re" else []) ++ u "newcommand"
            ++ c :: rest)
  = finditer (c :: rest).
Proof.
  intros Hs Hb.
  rewrite finditer_skip by (apply pattern_match_unbraced; assumption).
  rewrite app_assoc. apply finditer_skip_word.
  apply (Forall_of_forallb (fun c => negb (c =? BACKSLASH))).
  - intros x Hx. apply N.eqb_neq, negb_true_iff, Hx.
  - destruct re; vm_compute; reflexivity.
Qed.

Lemma finditer_unbraced_witness :
  finditer (u "\newcommand*{\added}[1]{}") = []
  /\ finditer (u "\renewcommand\added[1]{}") = [].
Proof.
  assert (Hstar : (42 : N) <> LBRACE) by discriminate.
  assert (Hbs : BACKSLASH <> LBRACE) by discriminate.
  split.
  - refine (eq_trans (finditer_unbraced false 42 (u "{\added}[1]{}")
                        eq_refl Hstar) _).
    vm_compute. reflexivity.
  - refine (eq_trans (finditer_unbraced true BACKSLASH (u "added[1]{}")
                        eq_refl Hbs) _).
    vm_compute. reflexivity.
Defined.

(** ** Definitions in a comment *)



(** ** The synthesizer and the key map *)

Lemma flat_map_agree {A B : Type} (f g : A -> list B) l :
  (forall x, x ∈ l -> f x = g x) -> flat_map f l = flat_map g l.
Proof.
  induction l as [|x l IH]; intros H; [reflexivity|].
  simpl. rewrite (H x), IH; [reflexivity | | left].
  intros y Hy. apply H. right. exact Hy.
Qed.

(** The bindings and the snippet entries depend on the table only through
    the macros of the key map: what the style file defines besides them is
    ignored. *)
Theorem generate_ignores_other_macros (cmds1 cmds2 : gmap (list N) Z) :
  (forall cmd, cmd ∈ map fst KEY_MAP -> cmds1 !! cmd = cmds2 !! cmd) ->
  generate_keybindings cmds1 = generate_keybindings cmds2
  /\ generate_snippets cmds1 = generate_snippets cmds2.
Proof.
  intros H. rewrite !generate_keybindings_flat_map, !generate_snippets_flat_map.
  split; apply flat_map_agree; intros item Hitem.
  - unfold bindings_of. rewrite (H (fst item)); [reflexivity|].
    apply list_elem_of_fmap. exists item. split; [reflexivity | exact Hitem].
  - unfold snippets_of. rewrite (H (fst item)); [reflexivity|].
    apply list_elem_of_fmap. exists item. split; [reflexivity | exact Hitem].
Qed.

Lemma generate_ignores_other_macros_witness :
  let cmds1 : gmap (list N) Z := {[ u "added" := 1%Z ]} in
  let cmds2 : gmap (list N) Z := <[u "textred" := 3%Z]> {[ u "added" := 1%Z ]} in
  generate_keybindings cmds1 = generate_keybindings cmds2.
Proof.
  intros cmds1 cmds2.
  apply (generate_ignores_other_macros cmds1 cmds2).
  intros cmd Hcmd. unfold cmds2. rewrite lookup_insert_ne; [reflexivity|].
  intros <-.
  assert (H : bool_decide (u "textred" ∈ map fst KEY_MAP) = false)
    by (vm_compute; reflexivity).
  apply bool_decide_eq_false in H. exact (H Hcmd).
Defined.

(** ** The chords do not collide *)

Lemma keys_sublist cmds km :
  map key (flat_map (bindings_of cmds) km)
  `sublist_of`
  flat_map (fun item => [fst (chords (fst item) (snd item));
                         snd (chords (fst item) (snd item))]) km.
Proof.
  induction km as [|item km IH]; [constructor|].
  cbn [flat_map]. rewrite map_app. apply sublist_app; [|exact IH].
  unfold bindings_of. destruct (cmds !! fst item); [|apply sublist_nil_l].
  reflexivity.
Qed.

(** Whatever the style file defines, no two bindings have the same chord. *)
Theorem chords_distinct (cmds : gmap (list N) Z) :
  NoDup (map key (generate_keybindings cmds)).
Proof.
  rewrite generate_keybindings_flat_map.
  apply (sublist_NoDup _ all_chords); [|apply keys_sublist].
  assert (H : bool_decide (NoDup all_chords) = true) by (vm_compute; reflexivity).
  apply bool_decide_eq_true in H. exact H.
Qed.

(** ** Where bindings and snippet entries come from *)

(** Every binding inserts a snippet in a LaTeX editor: it has the fixed
    command and context guard, its snippet is the one of a macro of the key
    map that the table holds, and its chord is the primary or the fallback
    chord of that macro. *)
Theorem bindings_sound (cmds : gmap (list N) Z) (b : Binding) :
  b ∈ generate_keybindings cmds ->
  command b = u "editor.action.insertSnippet"
  /\ when b = WHEN_CLAUSE
  /\ exists cmd base_key n_args,
       (cmd, base_key) ∈ KEY_MAP
       /\ cmds !! cmd = Some n_args
       /\ snippet (args b) = build_snippet cmd n_args
       /\ (key b = fst (chords cmd base_key) \/ key b = snd (chords cmd base_key)).
Proof.
  rewrite generate_keybindings_flat_map. intros Hb.
  apply list_elem_of_In, in_flat_map in Hb. destruct Hb as ([cmd base_key] & Hitem & Hb).
  apply list_elem_of_In in Hitem, Hb.
  unfold bindings_of in Hb. cbn [fst snd] in Hb.
  destruct (cmds !! cmd) as [n_args|] eqn:Hcmd;
    [|apply elem_of_nil in Hb; contradiction].
  apply elem_of_cons in Hb. destruct Hb as [->|Hb];
    [|apply list_elem_of_singleton in Hb; subst b];
    (split; [reflexivity|]; split; [reflexivity|];
     exists cmd, base_key, n_args; repeat split; auto).
Qed.

Lemma bindings_sound_witness :
  let cmds : gmap (list N) Z := {[ u "needRef" := 0%Z ]} in
  let b := make_binding (u "ctrl+shift+r") (u "\needRef ${TM_SELECTED_TEXT:$1}") in
  when b = WHEN_CLAUSE.
Proof.
  intros cmds b.
  assert (Hb : b ∈ generate_keybindings cmds).
  { replace (generate_keybindings cmds)
      with [make_binding (u "ctrl+r") (u "\needRef ${TM_SELECTED_TEXT:$1}"); b]
      by (vm_compute; reflexivity).
    right. left. }
  exact (proj1 (proj2 (bindings_sound cmds b Hb))).
Defined.

(** The snippets object holds exactly one entry for each macro of the key
    map that the table holds: under the label of the macro, with its prefix,
    its snippet as the one body line, and its description. *)
Theorem snippets_entries (cmds : gmap (list N) Z) (label : list N)
    (e : SnippetEntry) :
  (label, e) ∈ generate_snippets cmds
  <-> exists cmd base_key n_args,
        (cmd, base_key) ∈ KEY_MAP
        /\ cmds !! cmd = Some n_args
        /\ label = u "muse: " ++ cmd
        /\ e = snippet_entry cmd n_args.
Proof.
  rewrite generate_snippets_flat_map, list_elem_of_In, in_flat_map. split.
  - intros ([cmd base_key] & Hitem & He). apply list_elem_of_In in Hitem, He.
    unfold snippets_of in He. cbn [fst] in He.
    destruct (cmds !! cmd) as [n_args|] eqn:Hcmd;
      [|apply elem_of_nil in He; contradiction].
    apply list_elem_of_singleton in He. injection He as -> ->.
    exists cmd, base_key, n_args. repeat split; auto.
  - intros (cmd & base_key & n_args & Hitem & Hcmd & -> & ->).
    exists (cmd, base_key). split; [apply list_elem_of_In, Hitem|].
    unfold snippets_of. cbn [fst]. rewrite Hcmd. left. reflexivity.
Qed.

(** ** Snippets of macros with three and more arguments *)

Lemma fold_parts (parts0 : list (list N)) (positions : list Z) :
  fold_left (fun parts i =>
               parts ++ [u "{${" ++ str_int i ++ u ":引数" ++ str_int i ++ u "}}"])
    positions parts0
  = parts0 ++ map argument_group positions.
Proof.
  revert parts0. induction positions as [|i positions IH]; intros parts0; simpl.
  - rewrite app_nil_r. reflexivity.
  - rewrite IH, <- app_assoc. reflexivity.
Qed.

Lemma build_snippet_many_groups cmd n_args :
  (3 <= n_args)%Z ->
  build_snippet cmd n_args
  = u "\" ++ cmd ++ u "{${TM_SELECTED_TEXT:$1}}"
    ++ concat (map argument_group (py_range 2 (n_args + 1))).
Proof.
  intros Hn. unfold build_snippet.
  destruct (Z.leb_spec n_args 0) as [|_]; [lia|].
  destruct (Z.eqb_spec n_args 1) as [|_]; [lia|].
  destruct (Z.eqb_spec n_args 2) as [|_]; [lia|].
  cbv zeta. rewrite fold_parts. cbn [app concat].
  rewrite <- !app_assoc. reflexivity.
Qed.

Lemma py_range_snoc lo hi :
  (lo <= hi)%Z -> py_range lo (hi + 1) = py_range lo hi ++ [hi].
Proof.
  intros H. unfold py_range.
  replace (Z.to_nat (hi + 1 - lo)) with (S (Z.to_nat (hi - lo))) by lia.
  rewrite seq_S, map_app. cbn [map Nat.add]. do 2 f_equal. lia.
Qed.

(** From three arguments on, one more argument adds one argument group with
    the label [argument N] at the end of the snippet, and the labels of
    [modified], [commented] and [highlightComment] are not used: the second
    group of every macro is [argument 2]. *)
Theorem build_snippet_many (cmd : list N) (n_args : Z) :
  (3 <= n_args)%Z ->
  build_snippet cmd (n_args + 1)
  = build_snippet cmd n_args ++ argument_group (n_args + 1)
  /\ exists groups,
       build_snippet cmd n_args
       = u "\" ++ cmd ++ u "{${TM_SELECTED_TEXT:$1}}{${2:引数2}}{${3:引数3}}"
         ++ groups.
Proof.
  intros Hn. split.
  - rewrite !build_snippet_many_groups by lia.
    rewrite (py_range_snoc 2 (n_args + 1)) by lia.
    rewrite map_app, concat_app. cbn [map concat].
    rewrite app_nil_r, <- !app_assoc. reflexivity.
  - rewrite build_snippet_many_groups by lia.
    unfold py_range.
    replace (Z.to_nat (n_args + 1 - 2)) with (2 + Z.to_nat (n_args - 3))%nat by lia.
    rewrite seq_app, !map_app, concat_app.
    exists (concat (map argument_group
                      (map (fun k : nat => (2 + Z.of_nat k)%Z)
                         (seq (0 + 2) (Z.to_nat (n_args - 3)))))).
    replace (u "{${TM_SELECTED_TEXT:$1}}{${2:引数2}}{${3:引数3}}")
      with (u "{${TM_SELECTED_TEXT:$1}}"
            ++ concat (map argument_group
                         (map (fun k : nat => (2 + Z.of_nat k)%Z) (seq 0 2))))
      by (vm_compute; reflexivity).
    rewrite <- !app_assoc. reflexivity.
Qed.

Lemma build_snippet_many_witness :
  build_snippet (u "modified") 4
  = u "\modified{${TM_SELECTED_TEXT:$1}}{${2:引数2}}{${3:引数3}}{${4:引数4}}".
Proof.
  assert (H : (3 <= 3)%Z) by lia.
  change 4%Z with (3 + 1)%Z.
  rewrite (proj1 (build_snippet_many (u "modified") 3 H)).
  vm_compute. reflexivity.
Defined.

Lemma build_snippet_two cmd :
  build_snippet cmd 2
  = u "\" ++ cmd ++ u "{${TM_SELECTED_TEXT:$1}}"
    ++ u "{${2:" ++ second_label cmd ++ u "}}".
Proof.
  unfold build_snippet, second_label.
  change (2 <=? 0)%Z with false. change (2 =? 1)%Z with false.
  change (2 =? 2)%Z with true. cbv iota.
  destruct (decide (cmd = u "modified")) as [_|_];
    [|destruct (decide (cmd = u "commented" \/ cmd = u "highlightComment"))
        as [_|_]];
    do 2 f_equal; vm_compute; reflexivity.
Qed.

(** Every snippet starts with the invocation of the macro, followed by the
    placeholder of the selection: bare after a blank when the argument
    count is zero or negative, as the first argument group otherwise. *)
Theorem build_snippet_starts (cmd : list N) (n_args : Z) :
  exists rest,
    build_snippet cmd n_args
    = u "\" ++ cmd
      ++ (if (n_args <=? 0)%Z then u " ${TM_SELECTED_TEXT:$1}"
          else u "{${TM_SELECTED_TEXT:$1}}")
      ++ rest.
Proof.
  pose proof (build_snippet_two cmd) as Htwo.
  unfold build_snippet in *.
  destruct (Z.leb_spec n_args 0) as [Hle|Hgt].
  { exists []. rewrite app_nil_r. reflexivity. }
  destruct (Z.eqb_spec n_args 1) as [_|H1].
  { exists []. rewrite app_nil_r. reflexivity. }
  destruct (Z.eqb_spec n_args 2) as [_|H2].
  { exists (u "{${2:" ++ second_label cmd ++ u "}}"). exact Htwo. }
  assert (Hge : (3 <= n_args)%Z) by lia.
  pose proof (build_snippet_many_groups cmd n_args Hge) as Hmany.
  unfold build_snippet in Hmany.
  destruct (Z.leb_spec n_args 0) as [|_]; [lia|].
  destruct (Z.eqb_spec n_args 1) as [|_]; [lia|].
  destruct (Z.eqb_spec n_args 2) as [|_]; [lia|].
  eexists. exact Hmany.
Qed.

(** ** What a run leaves alone *)

Section RunEffects.
Variable path_resolve : list N -> exn + list N.
Variable stat_error : list N -> option exn.
Variable resolve : list N -> list N.
Variable json_dumps : json -> list N.
Variable stdout_error : list N -> option exn.

Lemma main_other_files argv w p :
  p <> resolve KEYBINDINGS_PATH -> p <> resolve SNIPPETS_PATH ->
  files (snd (main path_resolve stat_error resolve json_dumps stdout_error
                argv w)) !! p
  = files w !! p.
Proof.
  intros Hk Hs.
  destruct (main_cases path_resolve stat_error resolve json_dumps stdout_error
              argv w)
    as [H|[[sty_path H]|[[e H]|H]]]; try (rewrite H; reflexivity).
  destruct H as (sty_path & sty_text & cmds & Hge & Hp & Hst & Hfile & He).
  pose proof (main_run path_resolve stat_error resolve json_dumps stdout_error
                argv w sty_path sty_text cmds Hge Hp Hst Hfile He) as Hrun.
  destruct (write_text resolve KEYBINDINGS_PATH _ w) as [e|w1] eqn:H1;
    [rewrite Hrun; reflexivity|].
  apply write_text_files in H1. destruct H1 as [H1 _].
  destruct (write_text resolve SNIPPETS_PATH _ w1) as [e|w2] eqn:H2.
  - rewrite Hrun. cbn [snd]. rewrite H1.
    apply lookup_insert_ne. congruence.
  - apply write_text_files in H2. destruct H2 as [H2 _].
    rewrite Hrun, print_summary_files, H2, H1.
    rewrite !lookup_insert_ne by congruence. reflexivity.
Qed.


End RunEffects.


(** Whatever the outcome of a run, no file but the two output files is
    created, changed or removed. *)
Theorem main_touches_outputs_only (path_resolve : list N -> exn + list N)
    (stat_error : list N -> option exn) (resolve : list N -> list N)
    (json_dumps : json -> list N) (stdout_error : list N -> option exn)
    (argv : list (list N)) (w : world) (p : list N) :
  p <> resolve KEYBINDINGS_PATH -> p <> resolve SNIPPETS_PATH ->
  files (snd (main path_resolve stat_error resolve json_dumps stdout_error
                argv w)) !! p
  = files w !! p.
Proof. apply main_other_files. Qed.

Lemma main_touches_outputs_only_witness :
  let w := {| files := <[u "a.sty" := File (u "\newcommand{\added}[1]{}")]>
                         (<[u ".vscode" := Dir]> ∅);
              stdout := [] |} in
  files (snd (main (fun p => inr p) (fun _ => None) (fun p => p)
                (fun _ => u "[]") (fun _ => None) [u "prog"; u "a.sty"] w))
    !! u "a.sty"
  = Some (File (u "\newcommand{\added}[1]{}")).
Proof.
  intros w.
  rewrite (main_touches_outputs_only (fun p => inr p) (fun _ => None)
             (fun p => p) (fun _ => u "[]") (fun _ => None)
             [u "prog"; u "a.sty"] w (u "a.sty")).
  - vm_compute. reflexivity.
  - vm_compute. discriminate.
  - vm_compute. discriminate.
Defined.



(** ** The order of the output *)

Lemma labels_sublist cmds km :
  map fst (flat_map (snippets_of cmds) km) `sublist_of` map snippet_label km.
Proof.
  induction km as [|item km IH]; [constructor|].
  cbn [flat_map map]. rewrite map_app.
  change (snippet_label item :: map snippet_label km)
    with ([snippet_label item] ++ map snippet_label km).
  apply sublist_app; [|exact IH].
  unfold snippets_of. destruct (cmds !! fst item); [|apply sublist_nil_l].
  reflexivity.
Qed.

(** The bindings and the snippet entries come in the order of the key map,
    whatever the order of the definitions in the style file: the chords are
    the chords of the key map with some left out, and so are the labels. *)
Theorem output_in_key_map_order (cmds : gmap (list N) Z) :
  map key (generate_keybindings cmds) `sublist_of` all_chords
  /\ map fst (generate_snippets cmds) `sublist_of` map snippet_label KEY_MAP.
Proof.
  rewrite generate_keybindings_flat_map, generate_snippets_flat_map.
  split; [apply keys_sublist | apply labels_sublist].
Qed.

(** ** A run that fails half way *)



(** ** A bracket without a count *)

Section NoMatch.
Context {R : Type}.
Variable Q : list N -> Prop.
Variable p : N -> bool.
Hypothesis Q_step : forall a t, Q (a :: t) -> p a = true -> Q t.

Lemma star_none (k : list N -> option R) s :
  Q s -> (forall t, Q t -> k t = None) -> star p k s = None.
Proof.
  intros Hs Hk. induction s as [|a s IH]; simpl; [exact (Hk _ Hs)|].
  destruct (p a) eqn:Ha; [|exact (Hk _ Hs)].
  rewrite (IH (Q_step a s Hs Ha)). exact (Hk _ Hs).
Qed.

Lemma star_cap_none (k : list N -> list N -> option R) s :
  Q s -> (forall cap t, Q t -> k cap t = None) -> star_cap p k s = None.
Proof.
  intros Hs. revert k. induction s as [|a s IH]; intros k Hk; simpl;
    [exact (Hk _ _ Hs)|].
  destruct (p a) eqn:Ha; [|exact (Hk _ _ Hs)].
  rewrite (IH (Q_step a s Hs Ha)); [exact (Hk _ _ Hs)|].
  intros cap t Ht. apply Hk, Ht.
Qed.

Lemma plus_cap_none (k : list N -> list N -> option R) s :
  Q s -> (forall cap t, Q t -> k cap t = None) -> plus_cap p k s = None.
Proof.
  intros Hs Hk. unfold plus_cap. destruct s as [|a s]; [reflexivity|].
  destruct (p a) eqn:Ha; [|reflexivity].
  apply star_cap_none; [exact (Q_step a s Hs Ha)|].
  intros cap t Ht. apply Hk, Ht.
Qed.

End NoMatch.

Lemma tail_of_start body c rest : tail_of body c rest (body ++ c :: rest).
Proof. exists body, []. split; reflexivity. Qed.

Lemma tail_of_step body c rest (p : N -> bool) a t :
  p c = false -> tail_of body c rest (a :: t) -> p a = true ->
  tail_of body c rest t.
Proof.
  intros Hc (x & y & Hbody & Ht) Ha. destruct x as [|a' x].
  - injection Ht as -> _. congruence.
  - injection Ht as <- ->. exists x, (y ++ [a]).
    split; [rewrite <- app_assoc; exact Hbody | reflexivity].
Qed.

Lemma tail_of_head body c rest t :
  tail_of body c rest t -> exists a t', t = a :: t' /\ (a ∈ body \/ a = c).
Proof.
  intros (x & y & -> & ->). destruct x as [|a x].
  - exists c, rest. split; [reflexivity | right; reflexivity].
  - exists a, (x ++ c :: rest). split; [reflexivity|]. left.
    apply elem_of_app. right. left.
Qed.

Lemma bracket_no_count {R : Type} (body : list N) (c : N) (rest : list N)
    (k : list N -> list N -> option R) :
  no_count body c = true ->
  lit LBRACKET (star is_space (plus_cap is_digit (fun digits =>
    star is_space (lit RBRACKET (k digits)))))
    (LBRACKET :: body ++ c :: rest) = None.
Proof.
  unfold no_count. intros H.
  apply andb_true_iff in H. destruct H as [H Hbody].
  apply andb_true_iff in H. destruct H as [Hs Hd].
  apply negb_true_iff in Hs, Hd.
  rewrite lit_run.
  apply (star_none (tail_of body c rest) is_space
           (fun a t => tail_of_step body c rest is_space a t Hs));
    [apply tail_of_start|].
  intros t Ht.
  apply orb_true_iff in Hbody. destruct Hbody as [Hbody|Hbody].
  - destruct (tail_of_head _ _ _ _ Ht) as (a & t' & -> & Ha).
    unfold plus_cap. replace (is_digit a) with false; [reflexivity|].
    symmetry. destruct Ha as [Ha| ->]; [|exact Hd].
    apply space_not_digit. rewrite forallb_forall in Hbody.
    apply Hbody, list_elem_of_In, Ha.
  - apply andb_true_iff in Hbody. destruct Hbody as [Hbody Hc].
    apply negb_true_iff, N.eqb_neq in Hc.
    apply (plus_cap_none (tail_of body c rest) is_digit
             (fun a t => tail_of_step body c rest is_digit a t Hd));
      [exact Ht|].
    intros cap t1 Ht1.
    apply (star_none (tail_of body c rest) is_space
             (fun a t => tail_of_step body c rest is_space a t Hs));
      [exact Ht1|].
    intros t2 Ht2.
    destruct (tail_of_head _ _ _ _ Ht2) as (a & t' & -> & Ha).
    unfold lit. destruct (N.eqb_spec a RBRACKET) as [->|_]; [|reflexivity].
    exfalso. destruct Ha as [Ha|Ha]; [|congruence].
    rewrite forallb_forall in Hbody.
    specialize (Hbody _ (proj1 (list_elem_of_In _ _) Ha)).
    vm_compute in Hbody. discriminate Hbody.
Qed.

(** The pattern on a definition construct whose bracket holds no count: the
    match ends before the bracket, and its second group is absent. *)
Lemma pattern_match_no_count re ws1 ws2 name ws3 ws4 body c rest :
  header_ok ws1 ws2 name ws3 ws4 = true ->
  no_count body c = true ->
  pattern_match (definition_construct re ws1 ws2 name ws3 ws4 None
                 ++ LBRACKET :: body ++ c :: rest)
  = Some {| group1 := name; group2 := None;
            after := LBRACKET :: body ++ c :: rest |}.
Proof.
  unfold header_ok. intros H Hcount.
  repeat (apply andb_true_iff in H; destruct H as [H ?]).
  match goal with H : negb (bool_decide (name = [])) = true |- _ =>
    apply negb_true_iff, bool_decide_eq_false in H; rename H into Hname end.
  repeat match goal with H : forallb _ _ = true |- _ =>
    apply forallb_Forall in H end.
  set (post := LBRACKET :: body ++ c :: rest).
  set (r := {| group1 := name; group2 := None; after := post |}).
  set (K := star is_space (lit LBRACE (star is_space (lit BACKSLASH
              (plus_cap is_name_char (fun name =>
                 star is_space (lit RBRACE
                   (star is_space (bracket_group name))))))))).
  set (tail := ws1 ++ [LBRACE] ++ ws2 ++ [BACKSLASH] ++ name ++ ws3 ++ [RBRACE]
               ++ ws4 ++ [] ++ post).
  assert (HK : K tail = Some r).
  { unfold K, tail. cbn [app].
    apply star_run; [assumption | vm_compute; reflexivity |].
    rewrite lit_run.
    apply star_run; [assumption | vm_compute; reflexivity |].
    rewrite lit_run.
    apply plus_cap_run; [assumption | assumption | |].
    { apply (stops_app is_name_char is_space);
        [assumption | apply space_not_name_char | vm_compute; reflexivity]. }
    apply star_run; [assumption | vm_compute; reflexivity |].
    rewrite lit_run.
    apply star_run; [assumption | vm_compute; reflexivity |].
    unfold bracket_group, post.
    rewrite (bracket_no_count body c rest _ Hcount). reflexivity. }
  unfold definition_construct, pattern_match.
  rewrite <- !app_assoc. cbn [app]. rewrite lit_run.
  change (opt (lits (u "re")) (lits (u "newcommand") K)
            ((if re then u "re" else []) ++ u "newcommand" ++ tail) = Some r).
  unfold opt.
  destruct re.
  - rewrite !lits_run, HK. reflexivity.
  - cbn [app]. rewrite lits_re_newcommand, lits_run, HK. reflexivity.
Qed.

(** A definition construct followed by a bracket that holds no count (no
    digits, or something else than digits and white space before the
    closing bracket) is recorded with the argument count 0. *)
Theorem extract_commands_no_count (text pre body rest : list N) (re : bool)
    (ws1 ws2 name ws3 ws4 : list N) (c : N) :
  strip_comments text
  = pre ++ definition_construct re ws1 ws2 name ws3 ws4 None
    ++ LBRACKET :: body ++ c :: rest ->
  no_definition pre = true ->
  no_definition (LBRACKET :: body ++ c :: rest) = true ->
  header_ok ws1 ws2 name ws3 ws4 = true ->
  no_count body c = true ->
  extract_commands text = inr {[ name := 0%Z ]}.
Proof.
  intros Htext Hpre Hpost Hheader Hcount.
  unfold extract_commands. rewrite Htext.
  assert (Hc : exists X,
             definition_construct re ws1 ws2 name ws3 ws4 None
             ++ LBRACKET :: body ++ c :: rest
             = BACKSLASH :: X) by (eexists; reflexivity).
  destruct Hc as [X Hc]. rewrite Hc, (finditer_skip_before pre X Hpre), <- Hc.
  rewrite (finditer_match _ _
             (pattern_match_no_count re ws1 ws2 name ws3 ws4 body c rest
                Hheader Hcount)).
  cbn [after]. rewrite (finditer_no_definition _ Hpost).
  cbn [for_each]. unfold record_match. cbn [group1 group2 for_each].
  rewrite insert_empty. reflexivity.
Qed.

Lemma extract_commands_no_count_witness :
  extract_commands (u "\newcommand{\added}[1,2]{#1}")
  = inr {[ u "added" := 0%Z ]}
  /\ extract_commands (u "\newcommand{\deleted} [ ]{}")
     = inr {[ u "deleted" := 0%Z ]}.
Proof.
  split.
  - exact (extract_commands_no_count (u "\newcommand{\added}[1,2]{#1}")
             [] (u "1") (u "2]{#1}") false [] [] (u "added") [] [] 44
             eq_refl eq_refl eq_refl eq_refl eq_refl).
  - exact (extract_commands_no_count (u "\newcommand{\deleted} [ ]{}")
             [] (u " ") (u "{}") false [] [] (u "deleted") [] (u " ") RBRACKET
             eq_refl eq_refl eq_refl eq_refl eq_refl).
Defined.
